(** * Social-Media-Downloader: configuration, download paths, credentials

    A shallow embedding of the pure core of [smd/downloader.py]
    (configuration loading and repair, platform detection, file-name
    sanitising, organised download paths, unique file names, and the
    credential wrappers around Fernet; then the version comparison of the
    update check, the URL checks, the format selection, the stored logins,
    the link collector, and the paths of the metadata files and of the
    download options) together with the properties stated about it.

    Conventions of the embedding.
    - A Python [str] is a Rocq [string]; one [ascii] stands for one code
      point below 256, so [len] is [String.length].  Case folding and the
      white-space class follow Python on that range.
    - A JSON document, as [json.load] returns it, is a [json] value; a Python
      [dict] with string keys is a [gmap string json].
    - Exceptions are explicit: code that may raise returns a [result].
    - The file system is passed explicitly wherever the source reads or
      writes it. *)

From Stdlib Require Import ZArith Ascii String List Bool Lia.
From stdpp Require Import base option gmap strings pretty list.

Set Warnings "-register-all".
Local Open Scope string_scope.

(** ** Exceptions and results *)

Inductive exn : Type :=
| TypeError
| ValueError
| OverflowError
| AttributeError
| OSError.

Inductive result (A : Type) : Type :=
| Ok (a : A)
| Raise (e : exn).

Arguments Ok {A} a.
Arguments Raise {A} e.

#[global] Instance result_ret : MRet result := fun A a => Ok a.

#[global] Instance result_bind : MBind result := fun A B k r =>
  match r with
  | Ok a => k a
  | Raise e => Raise e
  end.

(** ** Characters and strings *)

Module Str.

Definition ord (c : ascii) : nat := nat_of_ascii c.

(** [str.isspace] on one character: U+0009..U+000D, U+001C..U+0020,
    U+0085 and U+00A0 are the white-space code points below 256. *)
Definition is_space (c : ascii) : bool :=
  let n := ord c in
  (((9 <=? n) && (n <=? 13)) || ((28 <=? n) && (n <=? 32))
   || (n =? 133) || (n =? 160))%nat.

(** [str.lower] on one character: A..Z, and the Latin-1 capitals
    U+00C0..U+00DE except the multiplication sign U+00D7. *)
Definition lower_char (c : ascii) : ascii :=
  let n := ord c in
  if (((65 <=? n) && (n <=? 90))
      || ((192 <=? n) && (n <=? 222) && negb (n =? 215)))%nat
  then ascii_of_nat (n + 32) else c.

Fixpoint lower (s : string) : string :=
  match s with
  | EmptyString => EmptyString
  | String c r => String (lower_char c) (lower r)
  end.

Fixpoint lstrip (p : ascii -> bool) (s : string) : string :=
  match s with
  | EmptyString => EmptyString
  | String c r => if p c then lstrip p r else s
  end.

Fixpoint rstrip (p : ascii -> bool) (s : string) : string :=
  match s with
  | EmptyString => EmptyString
  | String c r =>
      match rstrip p r with
      | EmptyString => if p c then EmptyString else String c EmptyString
      | r' => String c r'
      end
  end.

(** [s.strip(chars)], the stripped class given as a predicate. *)
Definition strip_with (p : ascii -> bool) (s : string) : string :=
  rstrip p (lstrip p s).

(** [s.strip()] *)
Definition strip (s : string) : string := strip_with is_space s.

Fixpoint mem (c : ascii) (chars : string) : bool :=
  match chars with
  | EmptyString => false
  | String d r => Ascii.eqb c d || mem c r
  end.

(** [s.strip(chars)] *)
Definition strip_chars (chars : string) (s : string) : string :=
  strip_with (fun c => mem c chars) s.

(** [s.replace(old, new)] for one-character [old] and [new]. *)
Fixpoint replace (old new : ascii) (s : string) : string :=
  match s with
  | EmptyString => EmptyString
  | String c r =>
      String (if Ascii.eqb c old then new else c) (replace old new r)
  end.

(** [needle in hay] *)
Fixpoint contains (needle hay : string) : bool :=
  String.prefix needle hay ||
  match hay with
  | EmptyString => false
  | String _ r => contains needle r
  end.

(** [s[:n]] and [s[n:]] for [0 <= n]. *)
Fixpoint take (n : nat) (s : string) : string :=
  match n, s with
  | S k, String c r => String c (take k r)
  | _, _ => EmptyString
  end.

Fixpoint drop (n : nat) (s : string) : string :=
  match n, s with
  | S k, String _ r => drop k r
  | _, _ => s
  end.

(** [s.rfind(c)] for a one-character [c]: the last index, or -1. *)
Fixpoint rfind_from (c : ascii) (s : string) (i : Z) (last : Z) : Z :=
  match s with
  | EmptyString => last
  | String d r => rfind_from c r (i + 1) (if Ascii.eqb d c then i else last)
  end.

Definition rfind (c : ascii) (s : string) : Z := rfind_from c s 0 (-1).

Definition startswith (pre s : string) : bool := String.prefix pre s.

Fixpoint endswith_char (c : ascii) (s : string) : bool :=
  match s with
  | EmptyString => false
  | String d EmptyString => Ascii.eqb d c
  | String _ r => endswith_char c r
  end.

Definition is_empty (s : string) : bool :=
  match s with
  | EmptyString => true
  | String _ _ => false
  end.

End Str.

(** ** JSON values as [json.load] builds them *)

(** A finite float [JFloat m e] has the value [m * 2^e]; the two infinities
    and NaN are what Python's decoder returns for [Infinity], [-Infinity],
    [NaN] and for literals beyond the double range such as [1e999]. *)
Inductive json : Type :=
| JNull
| JBool (b : bool)
| JInt (z : Z)
| JFloat (m e : Z)
| JInf (neg : bool)
| JNaN
| JString (s : string)
| JArray (l : list json)
| JObject (o : gmap string json).

Module Py.

(** [bool(v)] *)
Definition truthy (v : json) : bool :=
  match v with
  | JNull => false
  | JBool b => b
  | JInt z => negb (z =? 0)%Z
  | JFloat m _ => negb (m =? 0)%Z
  | JInf _ | JNaN => true
  | JString s => negb (Str.is_empty s)
  | JArray l => match l with [] => false | _ => true end
  | JObject o => negb (bool_decide (o = ∅))
  end.

(** [isinstance(v, bool)] *)
Definition is_bool (v : json) : bool :=
  match v with
  | JBool _ => true
  | _ => false
  end.

(** [str(v)] for [None], booleans, integers and strings.  The text of a
    float holds a ['.'], an ['e'], ["inf"] or ["nan"], that of a list or
    dict starts with a bracket: such a text is never a member of the two
    closed sets it is tested against, and is left out ([None]). *)
Definition str (v : json) : option string :=
  match v with
  | JNull => Some "None"
  | JBool true => Some "True"
  | JBool false => Some "False"
  | JInt z => Some (pretty z)
  | JString s => Some s
  | JFloat _ _ | JInf _ | JNaN | JArray _ | JObject _ => None
  end.

Definition digit_of (c : ascii) : option Z :=
  let n := Str.ord c in
  if ((48 <=? n) && (n <=? 57))%nat then Some (Z.of_nat (n - 48)) else None.

(** Decimal digits with single underscores between digits; returns the
    value and the number of digits read. *)
Fixpoint parse_digits (s : string) (acc : Z) (ndigits : nat)
         (prev_digit : bool) : option (Z * nat) :=
  match s with
  | EmptyString => if prev_digit then Some (acc, ndigits) else None
  | String c r =>
      match digit_of c with
      | Some d => parse_digits r (10 * acc + d)%Z (S ndigits) true
      | None =>
          if Ascii.eqb c "_"%char && prev_digit
          then parse_digits r acc ndigits false
          else None
      end
  end.

(** The interpreter's default bound on the digits of a decimal literal
    ([sys.int_info.default_max_str_digits]). *)
Definition int_max_str_digits : nat := 4300.

Definition parse_unsigned (s : string) : option Z :=
  match parse_digits s 0%Z 0 false with
  | Some (z, n) => if (int_max_str_digits <? n)%nat then None else Some z
  | None => None
  end.

(** [int(s)] for a string, base 10: surrounding white space is dropped,
    one sign is allowed; [None] stands for [ValueError]. *)
Definition int_of_str (s : string) : option Z :=
  match Str.strip s with
  | String "+"%char r => parse_unsigned r
  | String "-"%char r => Z.opp <$> parse_unsigned r
  | t => parse_unsigned t
  end.

(** [int(x)] for a finite float: truncation toward zero. *)
Definition float_trunc (m e : Z) : Z :=
  if (0 <=? e)%Z then (m * 2 ^ e)%Z else Z.quot m (2 ^ (- e)).

(** [int(v)] *)
Definition int (v : json) : result Z :=
  match v with
  | JNull => Raise TypeError
  | JBool b => Ok (if b then 1 else 0)%Z
  | JInt z => Ok z
  | JFloat m e => Ok (float_trunc m e)
  | JInf _ => Raise OverflowError
  | JNaN => Raise ValueError
  | JString s =>
      match int_of_str s with
      | Some z => Ok z
      | None => Raise ValueError
      end
  | JArray _ | JObject _ => Raise TypeError
  end.

End Py.

(** ** Configuration management *)

Module Config.

Definition DEFAULT_AUTHENTICATION : gmap string json :=
  list_to_map
    [ ("instagram_username", JString EmptyString);
      ("use_browser_cookies", JBool true);
      ("cookie_browser", JString "chrome");
      ("session_directory", JString ".smd_sessions") ].

(** [DEFAULT_CONFIG.items()], in source order. *)
Definition DEFAULT_CONFIG_items : list (string * json) :=
  [ ("default_format", JString "show_all");
    ("download_directory", JString "media");
    ("history_file", JString "download_history.csv");
    ("mp3_quality", JString "192");
    ("organize_downloads", JBool true);
    ("download_metadata", JBool true);
    ("download_comments", JBool false);
    ("download_subtitles", JBool false);
    ("max_comments", JInt 200);
    ("authentication", JObject DEFAULT_AUTHENTICATION) ].

Definition DEFAULT_CONFIG : gmap string json :=
  list_to_map DEFAULT_CONFIG_items.

Definition VALID_DEFAULT_FORMATS : gset string :=
  list_to_set
    [ "show_all"; "mp3"; "360p"; "480p"; "720p"; "1080p"; "1440p";
      "2160p"; "4320p" ].

Definition VALID_MP3_QUALITIES : gset string :=
  list_to_set [ "64"; "128"; "192"; "256"; "320"; "396" ].

(** [text in valid], where [text] is the outcome of [Py.str]. *)
Definition str_in (text : option string) (valid : gset string) : bool :=
  match text with
  | Some s => bool_decide (s ∈ valid)
  | None => false
  end.

(** [config_data.get(key, dflt)] *)
Definition get (config_data : gmap string json) (key : string)
           (dflt : json) : json :=
  default dflt (config_data !! key).

(** [key in o and p(o[key])] *)
Definition has (o : gmap string json) (key : string)
           (p : json -> bool) : bool :=
  match o !! key with
  | Some v => p v
  | None => false
  end.

(** The repair pass threads the dictionary and the [config_changed] flag. *)
Definition state : Type := gmap string json * bool.

(** The loop adding the missing keys from [DEFAULT_CONFIG]. *)
Definition add_missing_step (s : state) (item : string * json) : state :=
  let '(config_data, config_changed) := s in
  let '(key, default_value) := item in
  match config_data !! key with
  | None => (<[key := default_value]> config_data, true)
  | Some _ => (config_data, config_changed)
  end.

Definition add_missing (s : state) : state :=
  fold_left add_missing_step DEFAULT_CONFIG_items s.

Definition check_mp3_quality (s : state) : state :=
  let '(config_data, config_changed) := s in
  let mp3_quality := Py.str (get config_data "mp3_quality" (JString "192")) in
  if negb (str_in mp3_quality VALID_MP3_QUALITIES)
  then (<["mp3_quality" := JString "192"]> config_data, true)
  else (config_data, config_changed).

Definition check_default_format (s : state) : state :=
  let '(config_data, config_changed) := s in
  let default_format :=
    Str.lower <$>
      Py.str (get config_data "default_format" (JString "show_all")) in
  if negb (str_in default_format VALID_DEFAULT_FORMATS)
  then (<["default_format" := JString "show_all"]> config_data, true)
  else (config_data, config_changed).

(** One boolean block: [fallback] is the default given to [get], [reset]
    the value assigned when the stored one is not a [bool]. *)
Definition check_bool (key : string) (fallback reset : bool) (s : state)
  : state :=
  let '(config_data, config_changed) := s in
  let value := get config_data key (JBool fallback) in
  if negb (Py.is_bool value)
  then (<[key := JBool reset]> config_data, true)
  else (config_data, config_changed).

Definition check_organize_downloads : state -> state :=
  check_bool "organize_downloads" false false.

Definition check_download_metadata : state -> state :=
  check_bool "download_metadata" true true.

Definition check_download_comments : state -> state :=
  check_bool "download_comments" false false.

Definition check_download_subtitles : state -> state :=
  check_bool "download_subtitles" false false.

(** The body of the [try]: conversion, then the range test. *)
Definition convert_max_comments (v : json) : result Z :=
  max_comments ← Py.int v;
  if ((max_comments <? 1) || (10000 <? max_comments))%Z
  then Raise ValueError
  else Ok max_comments.

(** [except (ValueError, TypeError)] resets to 200; the [else] branch
    stores the converted integer; any other exception propagates. *)
Definition check_max_comments (s : state) : result state :=
  let '(config_data, config_changed) := s in
  match convert_max_comments (get config_data "max_comments" (JInt 200)) with
  | Ok max_comments =>
      Ok (<["max_comments" := JInt max_comments]> config_data,
          config_changed)
  | Raise ValueError | Raise TypeError =>
      Ok (<["max_comments" := JInt 200]> config_data, true)
  | Raise e => Raise e
  end.

Definition _validate_config (config_data : gmap string json)
  : result (gmap string json * bool) :=
  let s := (config_data, false) in
  let s := add_missing s in
  let s := check_mp3_quality s in
  let s := check_default_format s in
  let s := check_organize_downloads s in
  let s := check_download_metadata s in
  let s := check_download_comments s in
  let s := check_download_subtitles s in
  check_max_comments s.

(** What [json.load] may hand to the repair pass when the top-level value
    is not an object: [key not in config_data] is a membership test on a
    list and a substring test on a string, and a [TypeError] on anything
    else; the first key found missing is assigned, which is a [TypeError];
    with every key found, [config_data.get] is an [AttributeError]. *)
Definition key_in (key : string) (j : json) : option bool :=
  match j with
  | JArray l =>
      Some (existsb (fun v => match v with
                              | JString s => String.eqb s key
                              | _ => false
                              end) l)
  | JString s => Some (Str.contains key s)
  | _ => None
  end.

Definition not_a_dict (j : json) : exn :=
  if forallb (fun item : string * json => default false (key_in item.1 j))
             DEFAULT_CONFIG_items
  then AttributeError else TypeError.

(** The configuration file: absent, unreadable or not JSON, or holding a
    JSON value.  [json.dump] followed by [json.load] gives the value back,
    so the file is represented by the value it holds.  [writable] says
    whether [open(CONFIG_FILE, "w")] succeeds. *)
Inductive file_content : Type :=
| Unparseable
| Parsed (j : json).

Record filesystem : Type := {
  config_file : option file_content;
  writable : bool
}.

Definition write_config (config_data : gmap string json) (fs : filesystem)
  : filesystem :=
  {| config_file := Some (Parsed (JObject config_data));
     writable := writable fs |}.

(** [IOError] is caught and logged. *)
Definition _save_config (config_data : gmap string json) (fs : filesystem)
  : filesystem :=
  if writable fs then write_config config_data fs else fs.

Definition load_config (fs : filesystem)
  : result (gmap string json * filesystem) :=
  match config_file fs with
  | None =>
      if writable fs
      then Ok (DEFAULT_CONFIG, write_config DEFAULT_CONFIG fs)
      else Ok (DEFAULT_CONFIG, fs)
  | Some Unparseable => Ok (DEFAULT_CONFIG, fs)
  | Some (Parsed (JObject config_data)) =>
      '(config_data, config_changed) ← _validate_config config_data;
      let fs := if config_changed : bool
                then _save_config config_data fs else fs in
      Ok (config_data, fs)
  | Some (Parsed j) => Raise (not_a_dict j)
  end.

(** *** What the repair pass tests and what it leaves behind *)

(** The tests, as predicates on a stored value. *)
Definition mp3_quality_ok (v : json) : bool :=
  str_in (Py.str v) VALID_MP3_QUALITIES.

Definition default_format_ok (v : json) : bool :=
  str_in (Str.lower <$> Py.str v) VALID_DEFAULT_FORMATS.

Definition max_comments_converts (v : json) : bool :=
  match convert_max_comments v with
  | Ok _ => true
  | Raise _ => false
  end.

Definition max_comments_in_range (v : json) : bool :=
  match v with
  | JInt n => ((1 <=? n) && (n <=? 10000))%Z
  | _ => false
  end.

Definition all_present (c : gmap string json) : bool :=
  forallb (fun item : string * json => bool_decide (is_Some (c !! item.1)))
          DEFAULT_CONFIG_items.

(** A document in which the pass finds nothing to correct. *)
Definition accepted (c : gmap string json) : bool :=
  all_present c
  && has c "mp3_quality" mp3_quality_ok
  && has c "default_format" default_format_ok
  && has c "organize_downloads" Py.is_bool
  && has c "download_metadata" Py.is_bool
  && has c "download_comments" Py.is_bool
  && has c "download_subtitles" Py.is_bool
  && has c "max_comments" max_comments_converts.

(** A document as the pass returns it: accepted, with [max_comments] an
    integer. *)
Definition repaired (c : gmap string json) : bool :=
  all_present c
  && has c "mp3_quality" mp3_quality_ok
  && has c "default_format" default_format_ok
  && has c "organize_downloads" Py.is_bool
  && has c "download_metadata" Py.is_bool
  && has c "download_comments" Py.is_bool
  && has c "download_subtitles" Py.is_bool
  && has c "max_comments" max_comments_in_range.

(** The value the pass leaves under [key] when it finds [v] there. *)
Definition repaired_value (key : string) (v : json) : json :=
  if String.eqb key "mp3_quality"
  then if mp3_quality_ok v then v else JString "192"
  else if String.eqb key "default_format"
  then if default_format_ok v then v else JString "show_all"
  else if String.eqb key "organize_downloads"
  then if Py.is_bool v then v else JBool false
  else if String.eqb key "download_metadata"
  then if Py.is_bool v then v else JBool true
  else if String.eqb key "download_comments"
  then if Py.is_bool v then v else JBool false
  else if String.eqb key "download_subtitles"
  then if Py.is_bool v then v else JBool false
  else if String.eqb key "max_comments"
  then match convert_max_comments v with
       | Ok n => JInt n
       | Raise _ => JInt 200
       end
  else v.

(** The common shape of the field checks: test the stored value (or
    [fallback] when the key is absent), assign [reset] on failure. *)
Definition repair_field (key : string) (ok : json -> bool)
           (fallback reset : json) (s : state) : state :=
  let '(config_data, config_changed) := s in
  if negb (ok (get config_data key fallback))
  then (<[key := reset]> config_data, true)
  else (config_data, config_changed).

(** *** The data model of the specification

    The schema of section 3, written from its words: the recognised keys
    and the validity predicate of each. *)
Module Schema.

Definition recognized_keys : list string :=
  [ "download_directory"; "history_file"; "default_format";
    "mp3_quality"; "organize_downloads"; "download_metadata";
    "download_comments"; "download_subtitles"; "max_comments";
    "authentication" ].

Definition is_string (v : json) : bool :=
  match v with
  | JString _ => true
  | _ => false
  end.

Definition authentication_ok (v : json) : bool :=
  match v with
  | JObject a =>
      has a "instagram_username" is_string
      && has a "use_browser_cookies" Py.is_bool
      && has a "cookie_browser" is_string
      && has a "session_directory" is_string
  | _ => false
  end.

Definition in_enum (valid : gset string) (v : json) : bool :=
  match v with
  | JString s => bool_decide (s ∈ valid)
  | _ => false
  end.

Definition max_comments_ok (v : json) : bool :=
  match v with
  | JInt n => ((1 <=? n) && (n <=? 10000))%Z
  | _ => false
  end.

Definition field_ok (key : string) : json -> bool :=
  if String.eqb key "download_directory" then is_string
  else if String.eqb key "history_file" then is_string
  else if String.eqb key "default_format"
       then in_enum VALID_DEFAULT_FORMATS
  else if String.eqb key "mp3_quality" then in_enum VALID_MP3_QUALITIES
  else if String.eqb key "organize_downloads" then Py.is_bool
  else if String.eqb key "download_metadata" then Py.is_bool
  else if String.eqb key "download_comments" then Py.is_bool
  else if String.eqb key "download_subtitles" then Py.is_bool
  else if String.eqb key "max_comments" then max_comments_ok
  else if String.eqb key "authentication" then authentication_ok
  else fun _ => true.


(** Every recognised key is present with a valid value. *)
Definition valid (c : gmap string json) : bool :=
  forallb (fun key => has c key (field_ok key)) recognized_keys.


End Schema.

End Config.

(** ** Download paths *)

Module Paths.

(** *** [get_unique_filename] *)

(** [os.path.exists]: the file-system state is the finite set of the paths
    that exist. *)
Definition path_exists (fs : gset string) (p : string) : bool :=
  bool_decide (p ∈ fs).

(** The loop of [genericpath._splitext] that skips the leading dots of the
    last component: is there a character other than the dot among the
    [steps] characters from [filenameIndex] on? *)
Fixpoint has_non_dot (p : string) (filenameIndex steps : nat) : bool :=
  match steps with
  | O => false
  | S k =>
      match String.get filenameIndex p with
      | Some "."%char => has_non_dot p (S filenameIndex) k
      | _ => true
      end
  end.

(** [os.path.splitext] (posixpath). *)
Definition splitext (p : string) : string * string :=
  let sepIndex := Str.rfind "/" p in
  let dotIndex := Str.rfind "." p in
  if (sepIndex <? dotIndex)%Z
  then
    if has_non_dot p (Z.to_nat (sepIndex + 1))
                   (Z.to_nat (dotIndex - (sepIndex + 1)))
    then (Str.take (Z.to_nat dotIndex) p, Str.drop (Z.to_nat dotIndex) p)
    else (p, EmptyString)
  else (p, EmptyString).

(** [f"{base} ({counter}){ext}"] *)
Definition numbered (base ext : string) (counter : nat) : string :=
  base +:+ " (" +:+ pretty counter +:+ ")" +:+ ext.

(** The [while] loop; [fuel] bounds the number of existence tests. *)
Fixpoint unique_loop (fs : gset string) (base ext : string)
         (fuel counter : nat) : option string :=
  match fuel with
  | O => None
  | S fuel' =>
      let new_filename := numbered base ext counter in
      if path_exists fs new_filename
      then unique_loop fs base ext fuel' (S counter)
      else Some new_filename
  end.

Definition get_unique_filename (fuel : nat) (fs : gset string)
           (filename : string) : option string :=
  if negb (path_exists fs filename) then Some filename
  else
    let '(base, ext) := splitext filename in
    unique_loop fs base ext fuel 1.

(** *** [detect_platform_from_url] *)

(** [platform_map.items()], in source order. *)
Definition platform_map : list (string * string) :=
  [ ("youtube.com", "YouTube");
    ("youtu.be", "YouTube");
    ("tiktok.com", "TikTok");
    ("instagram.com", "Instagram");
    ("facebook.com", "Facebook");
    ("fb.watch", "Facebook");
    ("x.com", "X");
    ("twitter.com", "X");
    ("twitch.tv", "Twitch");
    ("clips.twitch.tv", "Twitch");
    ("snapchat.com", "Snapchat");
    ("reddit.com", "Reddit");
    ("vimeo.com", "Vimeo");
    ("dailymotion.com", "Dailymotion");
    ("dai.ly", "Dailymotion");
    ("rumble.com", "Rumble");
    ("odysee.com", "Odysee");
    ("bilibili.tv", "Bilibili");
    ("pinterest.com", "Pinterest");
    ("pin.it", "Pinterest");
    ("linkedin.com", "LinkedIn");
    ("weibo.com", "Weibo");
    ("tumblr.com", "Tumblr") ].

Fixpoint first_match (items : list (string * string)) (url_lower : string)
  : string :=
  match items with
  | [] => "Other"
  | (domain, platform) :: rest =>
      if Str.contains domain url_lower then platform
      else first_match rest url_lower
  end.

Definition detect_platform_from_url (url : string) : string :=
  let url_lower := Str.lower url in
  first_match platform_map url_lower.

(** What the substring test decides: [needle] occurs in [hay]. *)
Definition occurs_in (needle hay : string) : Prop :=
  exists pre post, hay = pre +:+ needle +:+ post.

(** *** [sanitize_filename] *)

Definition dquote : ascii := "034"%char.

Definition invalid_chars : string := "<>:" +:+ String dquote "/\|?*".

Definition sanitize_filename (name : string) : string :=
  if Str.is_empty name || Str.is_empty (Str.strip name) then "Unknown"
  else
    let name :=
      fold_left (fun name char => Str.replace char "_"%char name)
                (list_ascii_of_string invalid_chars) name in
    let name := Str.strip_chars ". " name in
    let name :=
      if (100 <? String.length name)%nat then Str.take 100 name else name in
    if Str.is_empty name then "Unknown" else name.

(** The function applied to whatever the metadata holds: a falsy value is
    caught by [not name]; any other value that is not a string has no
    [strip] method. *)
Definition sanitize_filename_any (name : json) : result string :=
  if negb (Py.truthy name) then Ok "Unknown"
  else
    match name with
    | JString s => Ok (sanitize_filename s)
    | _ => Raise AttributeError
    end.

(** The pipeline as the specification words it: blank input, one pass
    replacing the listed characters, strip, truncate, empty result. *)
Module Spec.

Definition is_invalid (c : ascii) : bool :=
  let n := Str.ord c in
  ((n =? 60) || (n =? 62) || (n =? 58) || (n =? 34) || (n =? 47)
   || (n =? 92) || (n =? 124) || (n =? 63) || (n =? 42))%nat.

Fixpoint replace_invalid (s : string) : string :=
  match s with
  | EmptyString => EmptyString
  | String c r =>
      String (if is_invalid c then "_"%char else c) (replace_invalid r)
  end.

Definition is_dot_or_space (c : ascii) : bool :=
  ((Str.ord c =? 46) || (Str.ord c =? 32))%nat.

Definition blank (s : string) : Prop :=
  Forall (fun c => Str.is_space c = true) (list_ascii_of_string s).

Definition sanitize (name : string) : string :=
  if bool_decide (blank name) then "Unknown"
  else
    let r := Str.take 100
               (Str.strip_with is_dot_or_space (replace_invalid name)) in
    if bool_decide (r = EmptyString) then "Unknown" else r.

End Spec.

(** *** [get_organized_download_path] *)

(** [os.path.join] (posixpath), one component at a time. *)
Definition join_step (path b : string) : string :=
  if Str.startswith "/" b then b
  else if Str.is_empty path || Str.endswith_char "/" path then path +:+ b
  else path +:+ "/" +:+ b.

Definition os_path_join (a : string) (p : list string) : string :=
  fold_left join_step p a.

(** Truth value of an optional string and of an optional dict. *)
Definition given_str (o : option string) : bool :=
  match o with
  | Some u => negb (Str.is_empty u)
  | None => false
  end.

Definition given_dict (o : option (gmap string json)) : bool :=
  match o with
  | Some i => negb (bool_decide (i = ∅))
  | None => false
  end.

(** The [if uploader_override: ... elif info: ...] cascade. *)
Definition pick_uploader (info : option (gmap string json))
           (uploader_override : option string) : json :=
  let uploader := JString "Unknown" in
  if given_str uploader_override
  then JString (default EmptyString uploader_override)
  else if given_dict info
  then
    let i := default ∅ info in
    Config.get i "uploader" (Config.get i "channel" (JString "Unknown"))
  else uploader.

(** [config] and [download_directory] are the module globals;
    [makedirs p] says whether [os.makedirs(p, exist_ok=True)] succeeds. *)
Definition get_organized_download_path
           (config : gmap string json) (download_directory : string)
           (makedirs : string -> bool)
           (url : string) (info : option (gmap string json))
           (uploader_override : option string) : result string :=
  if negb (Py.truthy (Config.get config "organize_downloads" (JBool false)))
  then Ok download_directory
  else
    let platform := detect_platform_from_url url in
    let uploader := pick_uploader info uploader_override in
    uploader ← sanitize_filename_any uploader;
    let organized_path :=
      os_path_join download_directory [platform; uploader] in
    if makedirs organized_path then Ok organized_path else Raise OSError.

(** The uploader as the specification words it: the override if given,
    otherwise the metadata's uploader field, falling back to its channel
    field, otherwise ["Unknown"]. *)
Definition spec_uploader (info : option (gmap string json))
           (uploader_override : option string) : json :=
  match uploader_override with
  | Some u => JString u
  | None =>
      match info with
      | Some i =>
          match i !! "uploader" with
          | Some v => v
          | None => default (JString "Unknown") (i !! "channel")
          end
      | None => JString "Unknown"
      end
  end.

(** A path component that is a plain name: not empty, no separator at
    either end. *)
Definition plain (a : string) : bool :=
  negb (Str.is_empty a) && negb (Str.startswith "/" a)
  && negb (Str.endswith_char "/" a).

(** An empty override and an empty metadata dict count as not given. *)
Definition nonempty_str (o : option string) : option string :=
  match o with
  | Some u => if Str.is_empty u then None else Some u
  | None => None
  end.

Definition nonempty_dict (o : option (gmap string json))
  : option (gmap string json) :=
  match o with
  | Some i => if bool_decide (i = ∅) then None else Some i
  | None => None
  end.

(** The first part of a joined path: [base] with a separator added unless
    [base] is empty or ends with one. *)
Definition with_sep (base : string) : string :=
  if Str.is_empty base || Str.endswith_char "/" base then base
  else base +:+ "/".

End Paths.

(** ** Credential storage *)

Module Vault.

Definition bytes : Type := list Byte.byte.

(** The libraries the two wrappers call, as an interface: the Fernet
    recipe of the [cryptography] package, [base64], and the UTF-8 codec
    behind [str.encode] and [bytes.decode].  [entropy] is what one call
    draws from the random source and the clock.  A [None] result stands for
    the exception the library raises. *)
Class Library : Type := {
  entropy : Type;
  generate_key : entropy -> bytes;
  valid_key : bytes -> bool;
  fernet_encrypt : bytes -> entropy -> bytes -> bytes;
  fernet_decrypt : bytes -> bytes -> option bytes;
  urlsafe_b64encode : bytes -> bytes;
  urlsafe_b64decode : bytes -> option bytes;
  encode : string -> bytes;
  decode : bytes -> option string
}.

(** The contracts of those libraries. *)
Class LibraryLaws (L : Library) : Prop := {
  generate_key_valid : forall r, valid_key (generate_key r) = true;
  fernet_roundtrip : forall key r data,
    valid_key key = true ->
    fernet_decrypt key (fernet_encrypt key r data) = Some data;
  b64_roundtrip : forall data,
    urlsafe_b64decode (urlsafe_b64encode data) = Some data;
  b64_text : forall data,
    exists text, decode (urlsafe_b64encode data) = Some text
                 /\ encode text = urlsafe_b64encode data;
  utf8_roundtrip : forall s, decode (encode s) = Some s;
  b64_padding : urlsafe_b64decode (encode "garbage") = None
}.

(** The key file [.smd_key]: its content when it exists, and whether it can
    be created. *)
Record store : Type := {
  key_file : option bytes;
  key_writable : bool
}.

Section Wrappers.

Context {L : Library}.

Definition _get_encryption_key (r : entropy) (st : store)
  : result (bytes * store) :=
  match key_file st with
  | Some key => Ok (key, st)
  | None =>
      let key := generate_key r in
      if key_writable st
      then Ok (key, {| key_file := Some key;
                       key_writable := key_writable st |})
      else Raise OSError
  end.

(** [Fernet(key)] raises [ValueError] on a malformed key. *)
Definition _encrypt_credential (r_key r_enc : entropy)
           (credential : string) (st : store) : result (string * store) :=
  '(key, st) ← _get_encryption_key r_key st;
  if negb (valid_key key) then Raise ValueError
  else
    let encrypted := fernet_encrypt key r_enc (encode credential) in
    match decode (urlsafe_b64encode encrypted) with
    | Some text => Ok (text, st)
    | None => Raise ValueError
    end.

(** The body of the [try], once the key is at hand; [None] is any
    exception, all of them caught by [except Exception]. *)
Definition decrypt_with (key : bytes) (encrypted_credential : string)
  : option string :=
  if negb (valid_key key) then None
  else
    encrypted_bytes ← urlsafe_b64decode (encode encrypted_credential);
    plain ← fernet_decrypt key encrypted_bytes;
    decode plain.

Definition _decrypt_credential (r_key : entropy)
           (encrypted_credential : string) (st : store) : string * store :=
  match _get_encryption_key r_key st with
  | Ok (key, st') =>
      (default EmptyString (decrypt_with key encrypted_credential), st')
  | Raise _ => (EmptyString, st)
  end.

(** A store under which a credential can be encrypted: the key file holds
    a well-formed key, or it is absent and can be created. *)
Definition key_ready (st : store) : bool :=
  match key_file st with
  | Some key => valid_key key
  | None => key_writable st
  end.

End Wrappers.

(** A small instance of the interface, used to check that the contracts
    can be met: the cipher and the codecs are the identity up to a tag. *)
Module Toy.

Definition tag : Byte.byte := Byte.x41.

Definition untag (data : bytes) : option bytes :=
  match data with
  | b :: rest => if Byte.eqb b tag then Some rest else None
  | [] => None
  end.

#[local] Instance library : Library := {|
  entropy := unit;
  generate_key := fun _ => [tag];
  valid_key := fun key => negb (bool_decide (key = []));
  fernet_encrypt := fun _ _ data => data;
  fernet_decrypt := fun _ token => Some token;
  urlsafe_b64encode := fun data => tag :: data;
  urlsafe_b64decode := untag;
  encode := list_byte_of_string;
  decode := fun data => Some (string_of_list_byte data)
|}.

End Toy.

End Vault.

(** ** Text operations *)

Module Text.

(** [s.split(sep)] for a non-empty [sep]: the text is cut at each leftmost
    occurrence of [sep] that does not overlap the one before; [skip] counts
    the characters of an occurrence still to pass over. *)
Fixpoint split_from (sep : string) (skip : nat) (s : string) : list string :=
  match s with
  | EmptyString => [EmptyString]
  | String c r =>
      match skip with
      | S k => split_from sep k r
      | O =>
          if String.prefix sep s
          then EmptyString :: split_from sep (String.length sep - 1) r
          else
            match split_from sep 0 r with
            | piece :: pieces => String c piece :: pieces
            | [] => [String c EmptyString]
            end
      end
  end.

Definition split (sep s : string) : list string := split_from sep 0 s.

(** [s.endswith(suffix)] *)
Definition endswith (suffix s : string) : bool :=
  String.eqb (Str.drop (String.length s - String.length suffix) s) suffix
  && (String.length suffix <=? String.length s)%nat.

(** [s[:-n]] for [0 < n] *)
Definition slice_end (n : nat) (s : string) : string :=
  Str.take (String.length s - n) s.

(** The characters of a decimal numeral. *)
Definition numeral_char (c : ascii) : Prop :=
  is_Some (Py.digit_of c) \/ c = "-"%char.

(** The same test as a boolean. *)
Definition numeral_charb (c : ascii) : bool :=
  bool_decide (is_Some (Py.digit_of c)) || Ascii.eqb c "-"%char.

End Text.

(** ** Version comparison *)

Module Version.

Definition CURRENT_VERSION : string := "1.1.12".

(** [tuple(map(int, ...))]; [None] when one of the conversions raises. *)
Definition _parse_version (version_str : string) : list Z :=
  let clean_version := Str.strip version_str in
  match mapM Py.int_of_str (Text.split "." clean_version) with
  | Some t => t
  | None => [0; 0; 0]%Z
  end.

(** [a < b] on tuples of integers. *)
Fixpoint tuple_lt (a b : list Z) : bool :=
  match a, b with
  | [], [] => false
  | [], _ :: _ => true
  | _ :: _, [] => false
  | x :: a', y :: b' => if (x =? y)%Z then tuple_lt a' b' else (x <? y)%Z
  end.

Inductive update_status : Type :=
| UpdateAvailable
| UpToDate
| DevelopmentVersion.

(** The comparison made by [check_for_updates] once the latest version
    has been fetched. *)
Definition version_status (latest_version : string) : update_status :=
  let current_parsed := _parse_version CURRENT_VERSION in
  let latest_parsed := _parse_version latest_version in
  if tuple_lt current_parsed latest_parsed then UpdateAvailable
  else if bool_decide (latest_parsed = current_parsed) then UpToDate
  else DevelopmentVersion.

End Version.

(** ** Outcomes *)

(** What a call leaves behind: a value, or an exception.  [KeyError] and
    [IndexError], the two kinds of [LookupError], are kept apart from the
    exceptions of [exn]. *)
Inductive outcome (A : Type) : Type :=
| Returns (a : A)
| Raises (e : exn)
| RaisesLookupError.

Arguments Returns {A} a.
Arguments Raises {A} e.
Arguments RaisesLookupError {A}.

(** ** URLs *)

Module Urls.

Definition SUPPORTED_DOMAINS : list string :=
  [ "youtube.com"; "youtu.be"; "tiktok.com"; "facebook.com"; "fb.watch";
    "x.com"; "twitter.com"; "twitch.tv"; "clips.twitch.tv"; "snapchat.com";
    "reddit.com"; "packaged-media.redd.it"; "vimeo.com"; "streamable.com";
    "pinterest.com"; "pin.it"; "linkedin.com"; "bilibili.tv"; "odysee.com";
    "rumble.com"; "gameclips.io"; "triller.co"; "snackvideo.com"; "kwai.com";
    "imdb.com"; "weibo.com"; "dailymotion.com"; "dai.ly"; "tumblr.com";
    "bsky.app" ].

Definition INSTAGRAM_DOMAINS : list string := [ "instagram.com" ].

Definition is_valid_platform_url (url : string)
           (allowed_domains : list string) : bool :=
  existsb (fun domain => Str.contains domain (Str.lower url))
          allowed_domains.

(** [l[i]]: the item, or [IndexError] when [i] is out of range. *)
Definition item {A : Type} (l : list A) (i : nat) : outcome A :=
  match l !! i with
  | Some a => Returns a
  | None => RaisesLookupError
  end.

(** [url.split(marker)[1].split("/")[0]] *)
Definition shortcode_after (marker url : string) : outcome (option string) :=
  match item (Text.split marker url) 1 with
  | Returns rest =>
      match item (Text.split "/" rest) 0 with
      | Returns shortcode => Returns (Some shortcode)
      | Raises e => Raises e
      | RaisesLookupError => RaisesLookupError
      end
  | Raises e => Raises e
  | RaisesLookupError => RaisesLookupError
  end.

Definition _extract_instagram_shortcode (url : string)
  : outcome (option string) :=
  if Str.contains "/reel/" url then shortcode_after "/reel/" url
  else if Str.contains "/p/" url then shortcode_after "/p/" url
  else if Str.contains "/tv/" url then shortcode_after "/tv/" url
  else Returns None.

(** [code] is the text that follows the leftmost occurrence of [marker] in
    [url], up to the next ['/'] or to the end of [url]. *)
Definition follows_marker (marker url code : string) : Prop :=
  exists pre rest,
    url = pre +:+ marker +:+ code +:+ rest
    /\ (forall i, (i < String.length pre)%nat ->
                  String.prefix marker (Str.drop i url) = false)
    /\ ~ Paths.occurs_in "/" code
    /\ (rest = EmptyString \/ Str.startswith "/" rest = true).

End Urls.

(** ** Format selection *)

Module Formats.

Definition friendly_format_map : gmap string string :=
  list_to_map
    [ ("360p", "bestvideo[height<=360]+bestaudio/best");
      ("480p", "bestvideo[height<=480]+bestaudio/best");
      ("720p", "bestvideo[height<=720]+bestaudio/best");
      ("1080p", "bestvideo[height<=1080]+bestaudio/best");
      ("1440p", "bestvideo[height<=1440]+bestaudio/best");
      ("2160p", "bestvideo[height<=2160]+bestaudio/best");
      ("4320p", "bestvideo[height<=4320]+bestaudio/best");
      ("mp3", "mp3");
      ("best", "bestvideo+bestaudio/best") ].

(** [config] is the module global; [print_format_table] is the outcome of
    printing the table, [typed] the line read by [input]. *)
Definition _get_format_choice (config : gmap string json)
           (print_format_table : result unit) (typed : string)
  : result string :=
  match Config.get config "default_format" (JString "show_all") with
  | JString s =>
      let preferred_format := Str.lower s in
      if String.eqb preferred_format "show_all"
      then _ ← print_format_table; Ok (Str.strip typed)
      else Ok (default preferred_format
                       (friendly_format_map !! preferred_format))
  | _ => Raise AttributeError
  end.

(** The selector built for a height limit. *)
Definition height_selector (height : string) : string :=
  "bestvideo[height<=" +:+ height +:+ "]+bestaudio/best".

End Formats.

(** ** Stored logins and the shared defaults *)

Module Process.

Import Config Vault.

(** [DEFAULT_CONFIG] is a module-level dict, and its ["authentication"]
    entry is a dict object of its own.  [DEFAULT_CONFIG.copy()] is a shallow
    copy and [config_data[key] = default_value] stores the default itself:
    a configuration that took its ["authentication"] entry from the
    defaults shares that object with [DEFAULT_CONFIG].  The state of the
    process is therefore the content of that object, next to the files. *)
Record world : Type := {
  default_auth : gmap string json;
  config_fs : filesystem;
  credentials_file : option file_content;
  credentials_writable : bool;
  key_store : store
}.

(** [DEFAULT_CONFIG.items()] when the shared object holds [auth]. *)
Definition default_items (auth : gmap string json) : list (string * json) :=
  [ ("default_format", JString "show_all");
    ("download_directory", JString "media");
    ("history_file", JString "download_history.csv");
    ("mp3_quality", JString "192");
    ("organize_downloads", JBool true);
    ("download_metadata", JBool true);
    ("download_comments", JBool false);
    ("download_subtitles", JBool false);
    ("max_comments", JInt 200);
    ("authentication", JObject auth) ].

(** A configuration dict in memory: its entries, and whether the
    ["authentication"] entry is the object shared with [DEFAULT_CONFIG]
    (its content is then the current [default_auth], not the entry kept in
    [entries]). *)
Record config_dict : Type := {
  entries : gmap string json;
  auth_shared : bool
}.

(** The content of a configuration, as [json.dump] or a reader sees it. *)
Definition content (auth : gmap string json) (config : config_dict)
  : gmap string json :=
  if auth_shared config
  then <["authentication" := JObject auth]> (entries config)
  else entries config.

Definition _validate_config (auth : gmap string json)
           (config_data : gmap string json) : result (config_dict * bool) :=
  let shared := bool_decide (config_data !! "authentication" = None) in
  let s := (config_data, false) in
  let s := fold_left add_missing_step (default_items auth) s in
  let s := check_mp3_quality s in
  let s := check_default_format s in
  let s := check_organize_downloads s in
  let s := check_download_metadata s in
  let s := check_download_comments s in
  let s := check_download_subtitles s in
  '(config_data, config_changed) ← check_max_comments s;
  Ok ({| entries := config_data; auth_shared := shared |}, config_changed).

Definition load_config (auth : gmap string json) (fs : filesystem)
  : result (config_dict * filesystem) :=
  let defaults := {| entries := list_to_map (default_items auth);
                     auth_shared := true |} in
  match config_file fs with
  | None =>
      if writable fs
      then Ok (defaults, write_config (list_to_map (default_items auth)) fs)
      else Ok (defaults, fs)
  | Some Unparseable => Ok (defaults, fs)
  | Some (Parsed (JObject config_data)) =>
      '(config, config_changed) ← _validate_config auth config_data;
      let fs := if config_changed : bool
                then _save_config (entries config) fs else fs in
      Ok (config, fs)
  | Some (Parsed j) => Raise (not_a_dict j)
  end.

Definition with_default_auth (auth : gmap string json) (w : world) : world :=
  {| default_auth := auth; config_fs := config_fs w;
     credentials_file := credentials_file w;
     credentials_writable := credentials_writable w;
     key_store := key_store w |}.

Definition with_config_fs (fs : filesystem) (w : world) : world :=
  {| default_auth := default_auth w; config_fs := fs;
     credentials_file := credentials_file w;
     credentials_writable := credentials_writable w;
     key_store := key_store w |}.

Definition with_credentials (c : option file_content) (w : world) : world :=
  {| default_auth := default_auth w; config_fs := config_fs w;
     credentials_file := c;
     credentials_writable := credentials_writable w;
     key_store := key_store w |}.

Definition with_key_store (st : store) (w : world) : world :=
  {| default_auth := default_auth w; config_fs := config_fs w;
     credentials_file := credentials_file w;
     credentials_writable := credentials_writable w;
     key_store := st |}.

(** [config["authentication"][key] = value] *)
Definition set_authentication (key : string) (value : json)
           (config : config_dict) (w : world) : world * outcome config_dict :=
  if auth_shared config
  then (with_default_auth (<[key := value]> (default_auth w)) w,
        Returns config)
  else
    match entries config !! "authentication" with
    | None => (w, RaisesLookupError)
    | Some (JObject a) =>
        (w, Returns {| entries := <["authentication" :=
                                      JObject (<[key := value]> a)]>
                                    (entries config);
                       auth_shared := false |})
    | Some _ => (w, Raises TypeError)
    end.

(** [_save_config(config)] *)
Definition save (config : config_dict) (w : world) : world :=
  with_config_fs
    (_save_config (content (default_auth w) config) (config_fs w)) w.

(** [config.get("authentication", {}).get(key, dflt)]; [None] is the
    [AttributeError] of a value without a [get] method. *)
Definition authentication_get (config : gmap string json) (key : string)
           (dflt : json) : option json :=
  match get config "authentication" (JObject ∅) with
  | JObject a => Some (get a key dflt)
  | _ => None
  end.

Definition isdigit_char (c : ascii) : bool :=
  let n := Str.ord c in
  (((48 <=? n) && (n <=? 57)) || (n =? 178) || (n =? 179) || (n =? 185))%nat.

(** [s.isdigit()]: the decimal digits and the superscripts U+00B2, U+00B3
    and U+00B9 are the digit characters below 256. *)
Definition isdigit (s : string) : bool :=
  negb (Str.is_empty s) && forallb isdigit_char (list_ascii_of_string s).

(** The user name as [setup_instagram_login] stores it. *)
Definition entered_username (typed : string) : string :=
  let username := Str.strip typed in
  if Str.startswith "@" username then Str.drop 1 username else username.


Section Calls.

Context {L : Library}.

(** [typed_username], [confirm] and [password] are what the user types at
    the three prompts (the second one is shown only for an all-digit
    name). *)
Definition setup_instagram_login (r_key r_enc : entropy)
           (typed_username confirm password : string) (w : world)
  : world * outcome bool :=
  let username := Str.strip typed_username in
  if Str.is_empty username then (w, Returns false)
  else
    let username :=
      if Str.startswith "@" username then Str.drop 1 username
      else username in
    if isdigit username && negb (Str.startswith "y" (Str.lower confirm))
    then (w, Returns false)
    else if Str.is_empty password then (w, Returns false)
    else
      match load_config (default_auth w) (config_fs w) with
      | Raise e => (w, Raises e)
      | Ok (config, fs) =>
          let w := with_config_fs fs w in
          match set_authentication "instagram_username" (JString username)
                                   config w with
          | (w, Raises e) => (w, Raises e)
          | (w, RaisesLookupError) => (w, RaisesLookupError)
          | (w, Returns config) =>
              let credentials :=
                match credentials_file w with
                | Some (Parsed j) => j
                | _ => JObject ∅
                end in
              match _encrypt_credential r_key r_enc password (key_store w)
              with
              | Raise e =>
                  let st := match _get_encryption_key r_key (key_store w) with
                            | Ok (_, st) => st
                            | Raise _ => key_store w
                            end in
                  (with_key_store st w, Raises e)
              | Ok (encrypted, st) =>
                  let w := with_key_store st w in
                  match credentials with
                  | JObject c =>
                      let c := <["instagram_password" := JString encrypted]>
                                 c in
                      if credentials_writable w
                      then
                        let w := with_credentials
                                   (Some (Parsed (JObject c))) w in
                        (save config w, Returns true)
                      else (w, Raises OSError)
                  | _ => (w, Raises TypeError)
                  end
              end
          end
      end.

(** [_decrypt_credential] applied to whatever the credentials file holds:
    a value that is not a string has no [encode] method, which is caught
    after the key has been fetched. *)
Definition _decrypt_credential_any (r_key : entropy) (v : json) (st : store)
  : string * store :=
  match v with
  | JString s => _decrypt_credential r_key s st
  | _ =>
      match _get_encryption_key r_key st with
      | Ok (_, st') => (EmptyString, st')
      | Raise _ => (EmptyString, st)
      end
  end.

Definition get_instagram_credentials (r_key : entropy) (w : world)
  : world * outcome (json * string) :=
  match load_config (default_auth w) (config_fs w) with
  | Raise e => (w, Raises e)
  | Ok (config, fs) =>
      let w := with_config_fs fs w in
      match authentication_get (content (default_auth w) config)
                               "instagram_username" (JString EmptyString)
      with
      | None => (w, Raises AttributeError)
      | Some username =>
          match credentials_file w with
          | None => (w, Returns (JString EmptyString, EmptyString))
          | Some file =>
              if negb (Py.truthy username)
              then (w, Returns (JString EmptyString, EmptyString))
              else
                match file with
                | Parsed (JObject credentials) =>
                    let encrypted_password :=
                      get credentials "instagram_password"
                          (JString EmptyString) in
                    let '(password, st) :=
                      _decrypt_credential_any r_key encrypted_password
                                              (key_store w) in
                    (with_key_store st w, Returns (username, password))
                | _ => (w, Returns (JString EmptyString, EmptyString))
                end
          end
      end
  end.

Definition is_instagram_authenticated (r_key : entropy) (w : world)
  : world * outcome bool :=
  match get_instagram_credentials r_key w with
  | (w, Returns (username, password)) =>
      (w, Returns (Py.truthy username && negb (Str.is_empty password)))
  | (w, Raises e) => (w, Raises e)
  | (w, RaisesLookupError) => (w, RaisesLookupError)
  end.

End Calls.



(** The checks that follow the loop over the defaults. *)
Definition checks (s : state) : result state :=
  check_max_comments
    (check_download_subtitles
       (check_download_comments
          (check_download_metadata
             (check_organize_downloads
                (check_default_format (check_mp3_quality s)))))).

(** A state with its ["authentication"] entry replaced. *)
Definition lift_auth (v : json) (s : state) : state :=
  (<["authentication" := v]> s.1, s.2).

(** A fresh installation: no configuration, credentials or key file. *)
Definition fresh_world (config_writable : bool) : world :=
  {| default_auth := DEFAULT_AUTHENTICATION;
     config_fs := {| config_file := None; writable := config_writable |};
     credentials_file := None;
     credentials_writable := true;
     key_store := {| key_file := None; key_writable := true |} |}.

End Process.

(** ** Links collected from a page *)

Module Browser.

(** What one call of the Selenium driver gives: an answer, or an
    exception. *)
Inductive reply (A : Type) : Type :=
| Answer (a : A)
| Fails.

Arguments Answer {A} a.
Arguments Fails {A}.

(** One pass of the [while] loop as the page answers it: the elements
    found with the [href] each of them reports ([None] for a missing
    attribute), the scroll, and the height read after it. *)
Record round : Type := {
  posts : reply (list (reply (option string)));
  scroll : reply unit;
  new_height : reply Z
}.

(** The driver: the height read before the loop and the answers of the
    successive passes; a driver that has no answer left fails. *)
Record driver : Type := {
  first_height : reply Z;
  rounds : list round
}.

(** [href and '/p/' in href and href not in post_links], for an [href]
    that is a string. *)
Definition wanted (href : string) (post_links : list string) : bool :=
  negb (Str.is_empty href) && Str.contains "/p/" href
  && negb (bool_decide (href ∈ post_links)).

(** The [for] loop; the flag says whether an exception ended it. *)
Fixpoint scan (max_count : Z) (elements : list (reply (option string)))
         (post_links : list string) : list string * bool :=
  match elements with
  | [] => (post_links, false)
  | Fails :: _ => (post_links, true)
  | Answer None :: rest => scan max_count rest post_links
  | Answer (Some href) :: rest =>
      if wanted href post_links
      then
        let post_links := (post_links ++ [href])%list in
        if (max_count <=? Z.of_nat (length post_links))%Z
        then (post_links, false)
        else scan max_count rest post_links
      else scan max_count rest post_links
  end.

(** The [while] loop, with the [try] around it: an exception ends the
    collection with the links gathered so far. *)
Fixpoint scroll_loop (max_count : Z) (rounds : list round) (last_height : Z)
         (post_links : list string) : list string :=
  match rounds with
  | [] => post_links
  | r :: rounds =>
      if (Z.of_nat (length post_links) <? max_count)%Z
      then
        match posts r with
        | Fails => post_links
        | Answer elements =>
            let '(post_links, raised) := scan max_count elements post_links in
            if raised : bool then post_links
            else if (max_count <=? Z.of_nat (length post_links))%Z
            then post_links
            else
              match scroll r, new_height r with
              | Answer _, Answer new_height =>
                  if (new_height =? last_height)%Z then post_links
                  else scroll_loop max_count rounds new_height post_links
              | _, _ => post_links
              end
        end
      else post_links
  end.

(** [l[:n]] *)
Definition slice_to {A : Type} (n : Z) (l : list A) : list A :=
  if (0 <=? n)%Z then take (Z.to_nat n) l
  else take (length l - Z.to_nat (- n)) l.

Definition _extract_instagram_post_links (d : driver) (max_count : Z)
  : list string :=
  let post_links :=
    match first_height d with
    | Answer last_height => scroll_loop max_count (rounds d) last_height []
    | Fails => []
    end in
  slice_to max_count post_links.

(** The [href] values the page reported. *)
Definition offered (d : driver) : list string :=
  r ← rounds d;
  match posts r with
  | Answer elements =>
      e ← elements;
      match e with
      | Answer (Some h) => [h]
      | _ => []
      end
  | Fails => []
  end.

(** What holds of the collected links at every point of the two loops. *)
Definition links_ok (seen : list string) (post_links : list string) : Prop :=
  NoDup post_links
  /\ Forall (fun h => h <> EmptyString /\ Paths.occurs_in "/p/" h) post_links
  /\ post_links ⊆ seen.

End Browser.

(** ** Metadata files and batch files *)

Module Metadata.

Import Config.


(** [os.path.basename] (posixpath) *)
Definition basename (p : string) : string :=
  Str.drop (Z.to_nat (Str.rfind "/" p + 1)) p.

(** The files [_process_downloaded_metadata] works on; the comments file
    only when comments are downloaded. *)
Record metadata_files : Type := {
  info_json_path : string;
  description_path : string;
  csv_path : option string
}.

(** The paths computed by [_process_downloaded_metadata]: [listing] is
    what [os.listdir(organized_path)] returns, [path_exists] is
    [os.path.exists], [download_comments] the truth value of
    [should_download_comments()]; [None] when the function finds nothing
    to do. *)
Definition _process_downloaded_metadata_files (organized_path : string)
           (listing : list string) (path_exists : string -> bool)
           (download_comments : bool) : option metadata_files :=
  match List.find (Text.endswith ".info.json") listing with
  | None => None
  | Some filename =>
      let info_json_path := Paths.os_path_join organized_path [filename] in
      if negb (Str.is_empty info_json_path) && path_exists info_json_path
      then
        let base_name := Text.slice_end 10 (basename info_json_path) in
        Some {| info_json_path := info_json_path;
                description_path :=
                  Paths.os_path_join organized_path
                    [base_name +:+ ".description.txt"];
                csv_path :=
                  if download_comments
                  then Some (Paths.os_path_join organized_path
                               [base_name +:+ ".comments.csv"])
                  else None |}
      else None
  end.


End Metadata.

(** ** Download options *)

Module Options.

(** The ["outtmpl"] entry of the options built by
    [_prepare_download_options]: [organized_path] is what
    [get_organized_download_path] returned, [title] the title of the
    metadata, [fs] the paths that exist; [fuel] bounds the loop of
    [get_unique_filename]. *)
Definition outtmpl (fuel : nat) (fs : gset string)
           (organized_path title choice : string) : option string :=
  filename_base ←
    Paths.get_unique_filename fuel fs
      (Paths.os_path_join organized_path [title]);
  if String.eqb choice "mp3"
  then Some (Paths.os_path_join organized_path [title +:+ ".%(ext)s"])
  else Some (filename_base +:+ ".%(ext)s").

End Options.

(** * Properties *)

Import Config.

(** ** The repair pass in closed form *)

Lemma add_missing_fold (items : list (string * json))
      (c : gmap string json) (ch : bool) :
  fold_left add_missing_step items (c, ch)
  = (c ∪ list_to_map items,
     ch || negb (forallb (fun item : string * json =>
                            bool_decide (is_Some (c !! item.1))) items)).
Proof.
  induction items as [|[key dv] items IH] in c, ch |- *; simpl.
  - rewrite (right_id_L ∅ (∪)). by rewrite orb_false_r.
  - destruct (c !! key) as [v|] eqn:Hkey.
    + rewrite IH. f_equal; [| by rewrite ?bool_decide_eq_true_2 by eauto ..].
      apply map_eq. intros k. rewrite !lookup_union.
      destruct (decide (k = key)) as [->|Hne].
      * rewrite lookup_insert_eq, Hkey. by destruct (list_to_map items !! key).
      * by rewrite lookup_insert_ne.
    + rewrite IH. f_equal.
      * apply map_eq. intros k. rewrite !lookup_union.
        destruct (decide (k = key)) as [->|Hne].
        -- rewrite !lookup_insert_eq, Hkey. simpl.
           by destruct (list_to_map items !! key).
        -- by rewrite !lookup_insert_ne.
      * rewrite (bool_decide_eq_false_2 (is_Some None)) by (intros [? ?]; done).
        simpl. by rewrite orb_true_r.
Qed.

Lemma add_missing_eq (c : gmap string json) (ch : bool) :
  add_missing (c, ch) = (c ∪ DEFAULT_CONFIG, ch || negb (all_present c)).
Proof. apply add_missing_fold. Qed.

Lemma repair_field_fst key ok fallback reset (s : state) :
  ok fallback = true ->
  (repair_field key ok fallback reset s).1
  = alter (fun v => if ok v then v else reset) key s.1.
Proof.
  intros Hfb. destruct s as [c ch]. unfold repair_field, get. simpl.
  destruct (c !! key) as [v|] eqn:Hkey; simpl.
  - destruct (ok v) eqn:Hok; simpl.
    + apply map_eq. intros k. destruct (decide (k = key)) as [->|Hne].
      * by rewrite lookup_alter_eq, Hkey; simpl; rewrite Hok.
      * by rewrite lookup_alter_ne.
    + apply map_eq. intros k. destruct (decide (k = key)) as [->|Hne].
      * by rewrite lookup_insert_eq, lookup_alter_eq, Hkey; simpl; rewrite Hok.
      * by rewrite lookup_insert_ne, lookup_alter_ne.
  - rewrite Hfb. simpl. apply map_eq. intros k.
    destruct (decide (k = key)) as [->|Hne].
    + by rewrite lookup_alter_eq, Hkey.
    + by rewrite lookup_alter_ne.
Qed.

Lemma repair_field_snd key ok fallback reset (s : state) :
  (repair_field key ok fallback reset s).2
  = s.2 || negb (ok (get s.1 key fallback)).
Proof.
  destruct s as [c ch]. unfold repair_field. simpl.
  destruct (ok (get c key fallback)); simpl.
  - by rewrite orb_false_r.
  - by rewrite orb_true_r.
Qed.


Lemma check_max_comments_ok (s s' : state) (v : json) :
  s.1 !! "max_comments" = Some v ->
  check_max_comments s = Ok s' ->
  s'.1 = <["max_comments" := repaired_value "max_comments" v]> s.1
  /\ s'.2 = s.2 || negb (max_comments_converts v).
Proof.
  destruct s as [c ch]. simpl. intros Hv.
  unfold check_max_comments, max_comments_converts, repaired_value, get.
  rewrite Hv. simpl.
  destruct (convert_max_comments v) as [n|[]]; intros H; simplify_eq; simpl;
    by rewrite ?orb_false_r, ?orb_true_r.
Qed.

Lemma convert_max_comments_raises (v : json) (e : exn) :
  convert_max_comments v = Raise e ->
  e = ValueError \/ e = TypeError
  \/ (e = OverflowError /\ exists b, v = JInf b).
Proof.
  unfold convert_max_comments.
  destruct v as [|b|z|m e'|b| |s|l|o]; simpl;
    try (intros; simplify_eq; eauto; fail).
  - destruct b; simpl; intros; simplify_eq; eauto.
  - destruct (_ || _); intros; simplify_eq; eauto.
  - destruct (_ || _); intros; simplify_eq; eauto.
  - destruct (Py.int_of_str s); simpl; [destruct (_ || _)|]; intros;
      simplify_eq; eauto.
Qed.

Lemma check_max_comments_total (s : state) (v : json) :
  s.1 !! "max_comments" = Some v ->
  (forall b, v <> JInf b) ->
  exists s', check_max_comments s = Ok s'.
Proof.
  destruct s as [c ch]. simpl. intros Hv Hinf.
  unfold check_max_comments, get. rewrite Hv. simpl.
  destruct (convert_max_comments v) as [n|e] eqn:Hc; [eauto|].
  apply convert_max_comments_raises in Hc as [->|[->|[-> [b ->]]]]; eauto.
  by destruct (Hinf b).
Qed.

Lemma default_lookup_union (d : gmap string json) (key : string) (dv : json) :
  DEFAULT_CONFIG !! key = Some dv ->
  (d ∪ DEFAULT_CONFIG) !! key = Some (default dv (d !! key)).
Proof.
  intros Hd. rewrite lookup_union, Hd. by destruct (d !! key).
Qed.

Lemma get_has_union (d : gmap string json) (key : string) (ok : json -> bool)
      (fallback dv : json) :
  DEFAULT_CONFIG !! key = Some dv ->
  ok (get (d ∪ DEFAULT_CONFIG) key fallback)
  = has (d ∪ DEFAULT_CONFIG) key ok.
Proof.
  intros Hd. unfold get, has. by rewrite (default_lookup_union _ _ _ Hd).
Qed.

Lemma get_alter_ne (m : gmap string json) (f : json -> json)
      (k key : string) (fallback : json) :
  k <> key -> get (alter f k m) key fallback = get m key fallback.
Proof. intros Hne. unfold get. by rewrite lookup_alter_ne. Qed.

Ltac peel_alter key :=
  match goal with
  | |- alter _ ?k _ !! key = _ =>
      destruct (decide (key = k)) as [->|?];
      [ rewrite lookup_alter_eq, ?lookup_alter_ne by done;
        by destruct (_ !! _)
      | rewrite lookup_alter_ne by done ]
  end.

Lemma check_bool_shape (key : string) (fallback reset : bool) (s : state) :
  check_bool key fallback reset s
  = repair_field key Py.is_bool (JBool fallback) (JBool reset) s.
Proof. reflexivity. Qed.

Lemma check_mp3_quality_shape (s : state) :
  check_mp3_quality s
  = repair_field "mp3_quality" mp3_quality_ok (JString "192") (JString "192")
                 s.
Proof. reflexivity. Qed.

Lemma check_default_format_shape (s : state) :
  check_default_format s
  = repair_field "default_format" default_format_ok (JString "show_all")
                 (JString "show_all") s.
Proof. reflexivity. Qed.

(** The state on which the [max_comments] block runs. *)
Lemma before_max_comments (d : gmap string json) :
  exists s : state,
    let c := d ∪ DEFAULT_CONFIG in
    _validate_config d = check_max_comments s
    /\ (forall key,
          s.1 !! key
          = (if String.eqb key "max_comments" then id
             else repaired_value key) <$> c !! key)
    /\ s.2 = negb (all_present d)
             || negb (has c "mp3_quality" mp3_quality_ok)
             || negb (has c "default_format" default_format_ok)
             || negb (has c "organize_downloads" Py.is_bool)
             || negb (has c "download_metadata" Py.is_bool)
             || negb (has c "download_comments" Py.is_bool)
             || negb (has c "download_subtitles" Py.is_bool).
Proof.
  eexists. split; [reflexivity|].
  unfold check_download_subtitles, check_download_comments,
    check_download_metadata, check_organize_downloads.
  rewrite !check_bool_shape, check_default_format_shape,
    check_mp3_quality_shape.
  split.
  - intros key. rewrite !repair_field_fst by reflexivity.
    rewrite add_missing_eq. simpl fst.
    repeat peel_alter key.
    destruct (String.eqb_spec key "max_comments") as [->|Hmc].
    { by destruct ((d ∪ DEFAULT_CONFIG) !! "max_comments"). }
    unfold repaired_value.
    repeat match goal with
           | H : key <> ?k |- _ =>
               rewrite (proj2 (String.eqb_neq key k)) by exact H; clear H
           end.
    by destruct ((d ∪ DEFAULT_CONFIG) !! key).
  - rewrite !repair_field_snd, !repair_field_fst by reflexivity.
    rewrite add_missing_eq. simpl fst. simpl snd.
    rewrite !get_alter_ne by done.
    repeat (erewrite get_has_union by reflexivity). reflexivity.
Qed.

Lemma all_present_lookup (c : gmap string json) (key : string) (dv : json) :
  all_present c = true ->
  DEFAULT_CONFIG !! key = Some dv ->
  is_Some (c !! key).
Proof.
  unfold all_present. intros Hall Hd.
  rewrite forallb_forall in Hall.
  apply elem_of_list_to_map_2 in Hd.
  apply list_elem_of_In, Hall in Hd. by apply bool_decide_eq_true in Hd.
Qed.

Lemma has_union_present (c : gmap string json) (key : string)
      (ok : json -> bool) :
  is_Some (c !! key) ->
  has (c ∪ DEFAULT_CONFIG) key ok = has c key ok.
Proof.
  intros [v Hv]. unfold has. by rewrite lookup_union, Hv, union_Some_l.
Qed.

Lemma all_present_union (c : gmap string json) :
  all_present c = true -> c ∪ DEFAULT_CONFIG = c.
Proof.
  intros Hall. apply map_eq. intros key. rewrite lookup_union.
  destruct (DEFAULT_CONFIG !! key) as [dv|] eqn:Hd.
  - destruct (all_present_lookup c key dv Hall Hd) as [v ->]. done.
  - by rewrite (right_id_L None union).
Qed.

Lemma convert_max_comments_range (v : json) (n : Z) :
  convert_max_comments v = Ok n -> (1 <= n <= 10000)%Z.
Proof.
  unfold convert_max_comments.
  destruct (Py.int v) as [z|e]; simpl; [|done].
  destruct (_ || _) eqn:Hr; [done|].
  intros [= <-]. apply orb_false_iff in Hr as [H1 H2]. lia.
Qed.

Lemma convert_max_comments_int (n : Z) :
  (1 <= n <= 10000)%Z -> convert_max_comments (JInt n) = Ok n.
Proof.
  intros Hn. unfold convert_max_comments. simpl.
  destruct (_ || _) eqn:Hr; [|done].
  apply orb_true_iff in Hr as [H|H]; lia.
Qed.

(** The repair pass in closed form. *)
Lemma validate_config_closed_form (d cfg : gmap string json) (ch : bool) :
  _validate_config d = Ok (cfg, ch) ->
  (forall key,
      cfg !! key = repaired_value key <$> (d ∪ DEFAULT_CONFIG) !! key)
  /\ ch = negb (accepted d).
Proof.
  intros Hv.
  destruct (before_max_comments d) as (s & Heq & Hlook & Hflag).
  rewrite Heq in Hv.
  pose proof (Hlook "max_comments") as Hmc.
  rewrite (default_lookup_union d "max_comments" (JInt 200) eq_refl) in Hmc.
  simpl in Hmc.
  destruct (check_max_comments_ok s (cfg, ch) _ Hmc Hv) as [Hc Hf].
  simpl in Hc, Hf. split.
  - intros key. rewrite Hc.
    destruct (String.eqb_spec key "max_comments") as [->|Hne].
    + rewrite lookup_insert_eq.
      by rewrite (default_lookup_union d "max_comments" (JInt 200) eq_refl).
    + rewrite lookup_insert_ne by done. rewrite Hlook.
      by rewrite (proj2 (String.eqb_neq _ _) Hne).
  - rewrite Hf, Hflag. unfold accepted.
    destruct (all_present d) eqn:Hall; [|done].
    rewrite !has_union_present
      by (eapply all_present_lookup; [exact Hall|reflexivity]).
    destruct (all_present_lookup d "max_comments" _ Hall eq_refl) as [v Hv'].
    rewrite Hv'. simpl.
    replace (has d "max_comments" max_comments_converts)
      with (max_comments_converts v) by (unfold has; by rewrite Hv').
    by rewrite !negb_andb.
Qed.

Lemma validate_config_raises (d : gmap string json) (e : exn) :
  _validate_config d = Raise e ->
  e = OverflowError /\ exists b, d !! "max_comments" = Some (JInf b).
Proof.
  intros Hv.
  destruct (before_max_comments d) as (s & Heq & Hlook & _).
  rewrite Heq in Hv.
  pose proof (Hlook "max_comments") as Hmc.
  rewrite (default_lookup_union d "max_comments" (JInt 200) eq_refl) in Hmc.
  simpl in Hmc. destruct s as [c f]. simpl in Hmc.
  unfold check_max_comments, get in Hv. rewrite Hmc in Hv. simpl in Hv.
  destruct (convert_max_comments _) as [n|e'] eqn:Hc; [done|].
  apply convert_max_comments_raises in Hc as [->|[->|[-> [b Hb]]]]; try done.
  simplify_eq. split; [done|]. exists b.
  destruct (d !! "max_comments") as [v|]; simpl in Hb; by simplify_eq.
Qed.


Lemma validate_config_total (d : gmap string json) :
  (forall b, d !! "max_comments" <> Some (JInf b)) ->
  exists cfg ch, _validate_config d = Ok (cfg, ch).
Proof.
  intros Hinf. destruct (_validate_config d) as [[cfg ch]|e] eqn:Hv; [eauto|].
  apply validate_config_raises in Hv as [_ [b Hb]]. by destruct (Hinf b).
Qed.

Lemma validate_config_repaired (d cfg : gmap string json) (ch : bool) :
  _validate_config d = Ok (cfg, ch) -> repaired cfg = true.
Proof.
  intros Hv. apply validate_config_closed_form in Hv as [Hlook _].
  assert (Hk : forall key dv, DEFAULT_CONFIG !! key = Some dv ->
             cfg !! key = Some (repaired_value key (default dv (d !! key)))).
  { intros key dv Hd. by rewrite Hlook, (default_lookup_union d key dv Hd). }
  unfold repaired, all_present, has. simpl.
  repeat match goal with
         | |- context [cfg !! ?k] => erewrite (Hk k) by reflexivity
         end.
  simpl.
  repeat (apply andb_true_intro; split); unfold repaired_value; simpl;
    match goal with
    | |- context [default ?dv ?o] => generalize (default dv o)
    end;
    intros v.
  - by destruct (mp3_quality_ok v) eqn:Hok.
  - by destruct (default_format_ok v) eqn:Hok.
  - by destruct (Py.is_bool v) eqn:Hok.
  - by destruct (Py.is_bool v) eqn:Hok.
  - by destruct (Py.is_bool v) eqn:Hok.
  - by destruct (Py.is_bool v) eqn:Hok.
  - destruct (convert_max_comments v) as [n|e] eqn:Hc; [|done].
    apply convert_max_comments_range in Hc. simpl.
    apply andb_true_intro. split; lia.
Qed.

Ltac split_checks H :=
  do 7 (let H' := fresh "Hfield" in apply andb_prop in H as [H H']).

Lemma max_comments_in_range_converts (v : json) :
  max_comments_in_range v = true -> convert_max_comments v = Ok
    match v with JInt n => n | _ => 0%Z end.
Proof.
  destruct v; try done. simpl. intros H.
  apply convert_max_comments_int. lia.
Qed.

Lemma repaired_accepted (c : gmap string json) :
  repaired c = true -> accepted c = true.
Proof.
  unfold repaired, accepted. intros H. split_checks H.
  rewrite H. simpl.
  repeat match goal with H : ?b = true |- context [?b] => rewrite H end.
  simpl. unfold has in *.
  destruct (c !! "max_comments") as [v|]; [|done].
  unfold max_comments_converts.
  by rewrite (max_comments_in_range_converts v).
Qed.

Lemma repaired_value_fixed (c : gmap string json) (key : string) (v : json) :
  repaired c = true -> c !! key = Some v -> repaired_value key v = v.
Proof.
  unfold repaired. intros H Hv. split_checks H.
  unfold has in *. unfold repaired_value.
  repeat match goal with
         | |- context [String.eqb key ?k] =>
             destruct (String.eqb_spec key k) as [->|?]
         end; try done; rewrite Hv in *;
    try match goal with H : ?b = true |- context [?b] => by rewrite H end.
  rewrite (max_comments_in_range_converts v) by done.
  by destruct v.
Qed.

(** A repaired document goes through the pass unchanged and unflagged. *)
Lemma validate_config_fixpoint (c : gmap string json) :
  repaired c = true -> _validate_config c = Ok (c, false).
Proof.
  intros Hr.
  assert (Hall : all_present c = true).
  { unfold repaired in Hr. by split_checks Hr. }
  destruct (validate_config_total c) as (cfg & ch & Hv).
  { intros b Hb. unfold repaired, has in Hr. split_checks Hr.
    by rewrite Hb in *. }
  rewrite Hv. apply validate_config_closed_form in Hv as [Hlook ->].
  rewrite (repaired_accepted c Hr). simpl. do 2 f_equal.
  apply map_eq. intros key. rewrite Hlook, (all_present_union c Hall).
  destruct (c !! key) as [v|] eqn:Hv; [|done]. simpl.
  by rewrite (repaired_value_fixed c key v Hr Hv).
Qed.


Lemma repaired_default : repaired DEFAULT_CONFIG = true.
Proof. vm_compute. reflexivity. Qed.




(** ** Boolean fields *)

(** In the four boolean blocks a stored boolean stays; anything else is
    replaced, by the default of the field in three of them and by [False]
    for [organize_downloads]. *)
Lemma validate_config_boolean (d cfg : gmap string json) (ch : bool)
      (key : string) (v : json) :
  _validate_config d = Ok (cfg, ch) ->
  key ∈ [ "organize_downloads"; "download_metadata"; "download_comments";
          "download_subtitles" ] ->
  d !! key = Some v ->
  (Py.is_bool v = true -> cfg !! key = Some v)
  /\ (Py.is_bool v = false -> key <> "organize_downloads" ->
      cfg !! key = DEFAULT_CONFIG !! key)
  /\ (Py.is_bool v = false -> key = "organize_downloads" ->
      cfg !! key = Some (JBool false)).
Proof.
  intros Hv Hkey Hd.
  apply validate_config_closed_form in Hv as [Hlook _].
  rewrite Hlook, lookup_union, Hd, union_Some_l. simpl.
  repeat (apply elem_of_cons in Hkey as [->|Hkey]);
    [..|by apply elem_of_nil in Hkey];
    unfold repaired_value; simpl;
    (split; [|split]); intros Hb; rewrite Hb; done.
Qed.

(** C2: a non-boolean [organize_downloads] is reset to [False] although the
    default configuration holds [True]; a non-boolean value in each of the
    other three boolean fields is reset to the default of the field. *)
Theorem organize_downloads_reset_not_default :
  _validate_config (<["organize_downloads" := JString "yes"]> DEFAULT_CONFIG)
  = Ok (<["organize_downloads" := JBool false]> DEFAULT_CONFIG, true)
  /\ DEFAULT_CONFIG !! "organize_downloads" = Some (JBool true)
  /\ _validate_config (<["download_metadata" := JString "yes"]> DEFAULT_CONFIG)
     = Ok (DEFAULT_CONFIG, true)
  /\ _validate_config (<["download_comments" := JInt 1]> DEFAULT_CONFIG)
     = Ok (DEFAULT_CONFIG, true)
  /\ _validate_config (<["download_subtitles" := JNull]> DEFAULT_CONFIG)
     = Ok (DEFAULT_CONFIG, true).
Proof. repeat split; reflexivity. Qed.

(** ** [max_comments] *)







(** ** Keys outside the default configuration *)



(** ** Loading *)














Import Paths.

(** ** Strings *)

Lemma append_cons (c : ascii) (a b : string) :
  String c a +:+ b = String c (a +:+ b).
Proof. reflexivity. Qed.

Lemma append_nil_l (b : string) : EmptyString +:+ b = b.
Proof. reflexivity. Qed.

Lemma prefix_spec (pre s : string) :
  String.prefix pre s = true <-> exists post, s = pre +:+ post.
Proof.
  revert s. induction pre as [|c pre IH]; intros s.
  - destruct s; simpl; split; eauto.
  - destruct s as [|d s]; simpl.
    + split; [done|intros [post Hpost]; done].
    + destruct (ascii_dec c d) as [->|Hne].
      * rewrite IH. split; intros [post Hpost]; exists post;
          rewrite append_cons in *; congruence.
      * split; [done|]. intros [post Hpost]. rewrite append_cons in Hpost.
        congruence.
Qed.

Lemma contains_nil (needle : string) :
  Str.contains needle EmptyString
  = String.prefix needle EmptyString || false.
Proof. reflexivity. Qed.

Lemma contains_cons (needle : string) (c : ascii) (hay : string) :
  Str.contains needle (String c hay)
  = String.prefix needle (String c hay) || Str.contains needle hay.
Proof. reflexivity. Qed.

Lemma contains_spec (needle hay : string) :
  Str.contains needle hay = true <-> occurs_in needle hay.
Proof.
  unfold occurs_in. split.
  - induction hay as [|c hay IH]; intros H.
    + rewrite contains_nil in H. apply orb_true_iff in H as [H|H]; [|done].
      apply prefix_spec in H as [post Hpost]. by exists EmptyString, post.
    + rewrite contains_cons in H. apply orb_true_iff in H as [H|H].
      * apply prefix_spec in H as [post Hpost]. by exists EmptyString, post.
      * destruct (IH H) as (pre & post & ->). by exists (String c pre), post.
  - intros (pre & post & ->). induction pre as [|c pre IH].
    + rewrite append_nil_l.
      assert (Hp : String.prefix needle (needle +:+ post) = true)
        by (apply prefix_spec; eauto).
      destruct (needle +:+ post);
        rewrite ?contains_nil, ?contains_cons, Hp; done.
    + rewrite append_cons, contains_cons, IH. apply orb_true_r.
Qed.

Lemma lower_char_idemp (c : ascii) :
  Str.lower_char (Str.lower_char c) = Str.lower_char c.
Proof. destruct c as [[] [] [] [] [] [] [] []]; reflexivity. Qed.

Lemma lower_idemp (s : string) : Str.lower (Str.lower s) = Str.lower s.
Proof.
  induction s as [|c s IH]; simpl; [done|].
  by rewrite lower_char_idemp, IH.
Qed.

(** ** Platform detection *)

Lemma first_match_spec (items : list (string * string)) (u platform : string) :
  first_match items u = platform <->
  (exists i domain,
      items !! i = Some (domain, platform)
      /\ Str.contains domain u = true
      /\ forall j d p, (j < i)%nat -> items !! j = Some (d, p) ->
                       Str.contains d u = false)
  \/ (platform = "Other"
      /\ forall d p, (d, p) ∈ items -> Str.contains d u = false).
Proof.
  induction items as [|[domain p0] items IH] in platform |- *; simpl.
  - split.
    + intros <-. right. split; [done|]. intros d p Hin.
      by apply elem_of_nil in Hin.
    + intros [(i & d & Hi & _)|[-> _]]; [done|done].
  - destruct (Str.contains domain u) eqn:Hc.
    + split.
      * intros <-. left. exists 0%nat, domain. repeat split; [done|].
        intros j d p Hj. lia.
      * intros [(i & d & Hi & Hd & Hfirst)|[-> Hnone]].
        -- destruct i as [|i]; [by simplify_eq/=|].
           specialize (Hfirst 0%nat domain p0 ltac:(lia) eq_refl). congruence.
        -- specialize (Hnone domain p0 ltac:(left)). congruence.
    + rewrite IH. split.
      * intros [(i & d & Hi & Hd & Hfirst)|[-> Hnone]].
        -- left. exists (S i), d. repeat split; [done|done|].
           intros [|j] d' p' Hj Hlook; simpl in Hlook; [by simplify_eq|].
           eapply Hfirst; [|exact Hlook]. lia.
        -- right. split; [done|]. intros d p Hin.
           apply elem_of_cons in Hin as [Heq|Hin]; [by simplify_eq|eauto].
      * intros [(i & d & Hi & Hd & Hfirst)|[-> Hnone]].
        -- destruct i as [|i]; [simpl in Hi; simplify_eq; congruence|].
           left. exists i, d. repeat split; [done|done|].
           intros j d' p' Hj Hlook. eapply (Hfirst (S j)); [lia|done].
        -- right. split; [done|]. intros d p Hin. eapply Hnone. by right.
Qed.

(** C6: the platform is the label of the first table entry whose domain
    fragment occurs in the lower-cased URL, and ["Other"] when none does;
    the fragments are themselves lower-case, and URLs that differ only in
    letter case get the same platform. *)
Theorem detect_platform_first_match (url : string) :
  (forall platform,
      detect_platform_from_url url = platform <->
      (exists i domain,
          platform_map !! i = Some (domain, platform)
          /\ occurs_in domain (Str.lower url)
          /\ forall j d p, (j < i)%nat -> platform_map !! j = Some (d, p) ->
                           ~ occurs_in d (Str.lower url))
      \/ (platform = "Other"
          /\ forall d p, (d, p) ∈ platform_map ->
                         ~ occurs_in d (Str.lower url)))
  /\ (forall url', Str.lower url' = Str.lower url ->
                   detect_platform_from_url url'
                   = detect_platform_from_url url)
  /\ detect_platform_from_url (Str.lower url) = detect_platform_from_url url
  /\ Forall (fun item : string * string => Str.lower item.1 = item.1)
            platform_map
  /\ detect_platform_from_url "https://youtu.be/xyz" = "YouTube"
  /\ detect_platform_from_url "https://example.com/video" = "Other".
Proof.
  assert (Hneg : forall d u, Str.contains d u = false <-> ~ occurs_in d u).
  { intros d u. rewrite <- contains_spec. by destruct (Str.contains d u). }
  split; [|split; [|split; [|split; [|split]]]].
  - intros platform. unfold detect_platform_from_url.
    rewrite first_match_spec. 
    split; (intros [(i & d & Hi & Hd & Hfirst)|[-> Hnone]];
            [left; exists i, d; repeat split; [done|by apply contains_spec|];
             intros j d' p' Hj Hlook; apply Hneg; eauto
            |right; split; [done|]; intros d p Hin; apply Hneg; eauto]).
  - intros url' Heq. unfold detect_platform_from_url. by rewrite Heq.
  - unfold detect_platform_from_url. by rewrite lower_idemp.
  - unfold platform_map. repeat constructor.
  - vm_compute. reflexivity.
  - vm_compute. reflexivity.
Qed.

(** ** Stripping and truncating *)

Lemma is_empty_spec (s : string) : Str.is_empty s = true <-> s = EmptyString.
Proof. by destruct s. Qed.

Lemma lstrip_ext (p q : ascii -> bool) (s : string) :
  (forall c, p c = q c) -> Str.lstrip p s = Str.lstrip q s.
Proof.
  intros Hpq. induction s as [|c s IH]; simpl; [done|].
  by rewrite Hpq, IH.
Qed.

Lemma rstrip_ext (p q : ascii -> bool) (s : string) :
  (forall c, p c = q c) -> Str.rstrip p s = Str.rstrip q s.
Proof.
  intros Hpq. induction s as [|c s IH]; simpl; [done|].
  by rewrite Hpq, IH.
Qed.

Lemma strip_with_ext (p q : ascii -> bool) (s : string) :
  (forall c, p c = q c) -> Str.strip_with p s = Str.strip_with q s.
Proof.
  intros Hpq. unfold Str.strip_with.
  by rewrite (lstrip_ext p q), (rstrip_ext p q).
Qed.

Lemma rstrip_empty (p : ascii -> bool) (s : string) :
  Str.rstrip p s = EmptyString
  <-> Forall (fun c => p c = true) (list_ascii_of_string s).
Proof.
  induction s as [|c s IH]; simpl.
  - split; [constructor|done].
  - destruct (Str.rstrip p s) as [|d r] eqn:Hr.
    + destruct (p c) eqn:Hc.
      * split; [|done]. intros _. constructor; [done|]. by apply IH.
      * split; [done|]. intros H. inversion H; congruence.
    + split; [done|]. intros H. inversion H as [|? ? _ Hs]; subst.
      apply IH in Hs. done.
Qed.

Lemma lstrip_empty (p : ascii -> bool) (s : string) :
  Forall (fun c => p c = true) (list_ascii_of_string s) ->
  Str.lstrip p s = EmptyString.
Proof.
  induction s as [|c s IH]; simpl; [done|].
  intros H. inversion H as [|? ? Hc Hs]; subst. rewrite Hc. by apply IH.
Qed.

Lemma lstrip_nonempty (p : ascii -> bool) (s : string) :
  ~ Forall (fun c => p c = true) (list_ascii_of_string s) ->
  exists c r, Str.lstrip p s = String c r /\ p c = false.
Proof.
  induction s as [|c s IH]; simpl; intros H.
  - destruct H. constructor.
  - destruct (p c) eqn:Hc; [|eauto].
    apply IH. intros Hs. apply H. by constructor.
Qed.

(** The stripped string is empty exactly when every character is in the
    stripped class. *)
Lemma strip_with_empty (p : ascii -> bool) (s : string) :
  Str.is_empty (Str.strip_with p s) = true
  <-> Forall (fun c => p c = true) (list_ascii_of_string s).
Proof.
  rewrite is_empty_spec. unfold Str.strip_with. split.
  - intros H.
    destruct (decide (Forall (fun c => p c = true)
                             (list_ascii_of_string s)))
      as [Hall|Hnot]; [done|].
    destruct (lstrip_nonempty p s Hnot) as (c & r & Hl & Hc).
    rewrite Hl in H. apply rstrip_empty in H. simpl in H.
    inversion H; congruence.
  - intros Hall. by rewrite (lstrip_empty p s Hall).
Qed.

Lemma take_length (n : nat) (s : string) :
  String.length (Str.take n s) = Nat.min n (String.length s).
Proof.
  revert s. induction n as [|n IH]; intros [|c s]; simpl; auto.
Qed.

Lemma take_all (n : nat) (s : string) :
  (String.length s <= n)%nat -> Str.take n s = s.
Proof.
  revert s. induction n as [|n IH]; intros [|c s]; simpl; intros H;
    try done; try lia.
  rewrite IH; [done|lia].
Qed.

(** ** Replacing the invalid characters *)

Lemma fold_replace_nil (chars : list ascii) :
  fold_left (fun name char => Str.replace char "_"%char name) chars
            EmptyString
  = EmptyString.
Proof. induction chars as [|ch chars IH]; simpl; done. Qed.

Lemma fold_replace_cons (chars : list ascii) (c : ascii) (s : string) :
  fold_left (fun name char => Str.replace char "_"%char name) chars
            (String c s)
  = String (fold_left (fun a char : ascii =>
                         if Ascii.eqb a char then "_"%char else a) chars c)
           (fold_left (fun name char => Str.replace char "_"%char name)
                      chars s).
Proof.
  revert c s. induction chars as [|ch chars IH]; intros c s; simpl; [done|].
  by rewrite IH.
Qed.

Lemma replace_chars_one (c : ascii) :
  fold_left (fun a char : ascii => if Ascii.eqb a char then "_"%char else a)
            (list_ascii_of_string invalid_chars) c
  = if Spec.is_invalid c then "_"%char else c.
Proof. destruct c as [[] [] [] [] [] [] [] []]; vm_compute; reflexivity. Qed.

Lemma replace_loop_spec (name : string) :
  fold_left (fun name char => Str.replace char "_"%char name)
            (list_ascii_of_string invalid_chars) name
  = Spec.replace_invalid name.
Proof.
  induction name as [|c name IH].
  - apply fold_replace_nil.
  - rewrite fold_replace_cons, replace_chars_one, IH. done.
Qed.

Lemma mem_dot_space (c : ascii) :
  Str.mem c ". " = Spec.is_dot_or_space c.
Proof. destruct c as [[] [] [] [] [] [] [] []]; vm_compute; reflexivity. Qed.

Lemma sanitize_filename_refines (name : string) :
  sanitize_filename name = Spec.sanitize name.
Proof.
  unfold sanitize_filename, Spec.sanitize.
  assert (Hblank : Str.is_empty name || Str.is_empty (Str.strip name)
                   = bool_decide (Spec.blank name)).
  { unfold Spec.blank, Str.strip.
    destruct (Str.is_empty (Str.strip_with Str.is_space name)) eqn:Hs.
    - rewrite orb_true_r. symmetry. apply bool_decide_eq_true.
      by apply strip_with_empty.
    - rewrite orb_false_r.
      destruct (Str.is_empty name) eqn:Hn.
      + apply is_empty_spec in Hn. by subst.
      + symmetry. apply bool_decide_eq_false. intros Hb.
        apply strip_with_empty in Hb. congruence. }
  rewrite Hblank. destruct (bool_decide (Spec.blank name)); [done|].
  rewrite replace_loop_spec.
  unfold Str.strip_chars.
  rewrite (strip_with_ext _ Spec.is_dot_or_space) by apply mem_dot_space.
  set (t := Str.strip_with Spec.is_dot_or_space (Spec.replace_invalid name)).
  assert (Ht : (if (100 <? String.length t)%nat then Str.take 100 t else t)
               = Str.take 100 t).
  { destruct (100 <? String.length t)%nat eqn:Hl; [done|].
    apply Nat.ltb_ge in Hl. by rewrite take_all. }
  rewrite Ht. by destruct (Str.take 100 t).
Qed.

(** C5: [sanitize_filename] is the pipeline of the specification (blank
    input, one replacement pass, strip of dots and spaces, cut at 100
    characters, empty result), with the four sample results. *)
Theorem sanitize_filename_pipeline (name : string) :
  sanitize_filename name = Spec.sanitize name
  /\ (String.length (sanitize_filename name) <= 100)%nat
  /\ (~ Spec.blank name ->
      (100 <= String.length (Str.strip_with Spec.is_dot_or_space
                               (Spec.replace_invalid name)))%nat ->
      String.length (sanitize_filename name) = 100%nat)
  /\ sanitize_filename EmptyString = "Unknown"
  /\ sanitize_filename "a/b\c" = "a_b_c"
  /\ sanitize_filename ".hidden." = "hidden"
  /\ String.length
       (sanitize_filename (string_of_list_ascii (repeat "a"%char 150)))
     = 100%nat.
Proof.
  split; [apply sanitize_filename_refines|].
  rewrite sanitize_filename_refines. unfold Spec.sanitize.
  split; [|split].
  - destruct (bool_decide (Spec.blank name)); [simpl; lia|].
    destruct (bool_decide _); [simpl; lia|].
    rewrite take_length. lia.
  - intros Hb Hlen. rewrite bool_decide_eq_false_2 by done.
    set (t := Str.strip_with _ _) in *.
    assert (Hl : String.length (Str.take 100 t) = 100%nat)
      by (rewrite take_length; lia).
    destruct (bool_decide (Str.take 100 t = EmptyString)) eqn:He; [|done].
    apply bool_decide_eq_true in He. rewrite He in Hl. done.
  - repeat split; vm_compute; reflexivity.
Qed.

Lemma sanitize_filename_pipeline_witness :
  let name := string_of_list_ascii (repeat "a"%char 150) +:+ " ." in
  String.length (sanitize_filename name) = 100%nat.
Proof.
  apply (proj1 (proj2 (proj2 (sanitize_filename_pipeline _)))).
  - intros Hb. unfold Spec.blank in Hb. apply Forall_inv in Hb. done.
  - vm_compute. lia.
Defined.

(** ** Unique file names *)

Lemma list_ascii_of_string_app (a b : string) :
  list_ascii_of_string (a +:+ b)
  = (list_ascii_of_string a ++ list_ascii_of_string b)%list.
Proof.
  induction a as [|c a IH]; [done|].
  change (String c a +:+ b) with (String c (a +:+ b)). simpl. by rewrite IH.
Qed.

Lemma length_append (a b : string) :
  String.length (a +:+ b) = (String.length a + String.length b)%nat.
Proof.
  induction a as [|c a IH]; [done|].
  change (String c a +:+ b) with (String c (a +:+ b)). simpl. by rewrite IH.
Qed.

Lemma append_inj_r (a b s : string) : a +:+ s = b +:+ s -> a = b.
Proof.
  intros H. apply (f_equal list_ascii_of_string) in H.
  rewrite !list_ascii_of_string_app in H. apply app_inv_tail in H.
  apply (f_equal string_of_list_ascii) in H.
  by rewrite !string_of_list_ascii_of_string in H.
Qed.

Lemma numbered_inj (base ext : string) (n m : nat) :
  numbered base ext n = numbered base ext m -> n = m.
Proof.
  unfold numbered. intros H.
  apply String.app_inj, String.app_inj in H.
  apply append_inj_r in H. by apply (inj pretty) in H.
Qed.

Lemma take_drop (n : nat) (s : string) : Str.take n s +:+ Str.drop n s = s.
Proof.
  revert s. induction n as [|n IH]; intros [|c s]; try done.
  simpl. change (String c (Str.take n s) +:+ Str.drop n s)
    with (String c (Str.take n s +:+ Str.drop n s)). by rewrite IH.
Qed.

Lemma append_nil_r (s : string) : s +:+ EmptyString = s.
Proof.
  induction s as [|c s IH]; [done|].
  change (String c s +:+ EmptyString) with (String c (s +:+ EmptyString)).
  by rewrite IH.
Qed.

Lemma splitext_append (p base ext : string) :
  splitext p = (base, ext) -> base +:+ ext = p.
Proof.
  unfold splitext.
  destruct (_ <? _)%Z; [destruct (has_non_dot _ _ _)|]; intros [= <- <-];
    auto using take_drop, append_nil_r.
Qed.

(** The loop stops at the first counter whose name is free. *)
Lemma unique_loop_finds (fs : gset string) (base ext : string)
      (k fuel counter : nat) :
  (forall m, (counter <= m < counter + k)%nat -> numbered base ext m ∈ fs) ->
  numbered base ext (counter + k) ∉ fs ->
  (k < fuel)%nat ->
  unique_loop fs base ext fuel counter = Some (numbered base ext (counter + k)).
Proof.
  revert fuel counter. induction k as [|k IH]; intros fuel counter Hin Hout Hf.
  - destruct fuel as [|fuel]; [lia|]. simpl. rewrite Nat.add_0_r in Hout.
    unfold path_exists. rewrite bool_decide_eq_false_2 by done.
    by rewrite Nat.add_0_r.
  - destruct fuel as [|fuel]; [lia|]. simpl.
    unfold path_exists. rewrite bool_decide_eq_true_2 by (apply Hin; lia).
    replace (counter + S k)%nat with (S counter + k)%nat in * by lia.
    apply IH; [|done|lia]. intros m Hm. apply Hin. lia.
Qed.

(** Among [bound] consecutive counters, if one name is free then there is a
    first free one. *)
Lemma first_free (fs : gset string) (base ext : string) (bound counter : nat) :
  (exists m, (counter <= m < counter + bound)%nat
             /\ numbered base ext m ∉ fs) ->
  exists k, (k < bound)%nat
            /\ (forall m, (counter <= m < counter + k)%nat ->
                          numbered base ext m ∈ fs)
            /\ numbered base ext (counter + k) ∉ fs.
Proof.
  revert counter.
  induction bound as [|bound IH]; intros counter (m & Hm & Hfree).
  - lia.
  - destruct (decide (numbered base ext counter ∈ fs)) as [Hin|Hout].
    + destruct (IH (S counter)) as (k & Hk & Hbelow & Hk').
      { exists m. split; [|done].
        destruct (decide (m = counter)) as [->|]; [done|lia]. }
      exists (S k). split; [lia|]. split.
      * intros m' Hm'. destruct (decide (m' = counter)) as [->|]; [done|].
        apply Hbelow. lia.
      * by replace (counter + S k)%nat with (S counter + k)%nat by lia.
    + exists 0%nat. split; [lia|]. split; [intros; lia|].
      by rewrite Nat.add_0_r.
Qed.

(** More names than the file system has entries cannot all exist. *)
Lemma some_name_free (fs : gset string) (base ext : string) (counter : nat) :
  exists m, (counter <= m < counter + S (size fs))%nat
            /\ numbered base ext m ∉ fs.
Proof.
  set (names := numbered base ext <$> seq counter (S (size fs))).
  destruct (decide (Forall (fun p => p ∈ fs) names)) as [Hall|Hnot].
  - exfalso.
    assert (Hnd : NoDup names).
    { apply NoDup_fmap_2_strong; [|apply NoDup_seq].
      intros n m _ _. apply numbered_inj. }
    assert (Hsub : list_to_set names ⊆ fs).
    { intros p Hp. apply elem_of_list_to_set in Hp.
      rewrite Forall_forall in Hall. by apply Hall. }
    apply subseteq_size in Hsub.
    rewrite size_list_to_set in Hsub by done.
    unfold names in Hsub. rewrite length_fmap, length_seq in Hsub. lia.
  - apply not_Forall_Exists in Hnot; [|intros p; apply _].
    apply Exists_exists in Hnot as (p & Hp & Hfree).
    apply list_elem_of_fmap in Hp as (m & -> & Hm).
    apply elem_of_seq in Hm. exists m. split; [lia|done].
Qed.

(** C8: a path that does not exist is returned as it is; otherwise the
    result is the name with [" (n)"] before the extension for the least
    [n >= 1] that is free, and the search ends within one test more than the
    file system has entries. *)
Theorem get_unique_filename_spec (fs : gset string) (filename : string) :
  exists result,
    (forall fuel, (size fs < fuel)%nat ->
                  get_unique_filename fuel fs filename = Some result)
    /\ ((filename ∉ fs) -> result = filename)
    /\ ((filename ∈ fs) ->
        exists base ext n,
          splitext filename = (base, ext)
          /\ base +:+ ext = filename
          /\ (1 <= n <= size fs)%nat
          /\ result = base +:+ " (" +:+ pretty n +:+ ")" +:+ ext
          /\ (result ∉ fs)
          /\ forall m, (1 <= m < n)%nat ->
                       base +:+ " (" +:+ pretty m +:+ ")" +:+ ext ∈ fs)
    /\ get_unique_filename 3 {[ "a.mp4"; "a (1).mp4" ]} "a.mp4"
       = Some "a (2).mp4".
Proof.
  unfold get_unique_filename, path_exists.
  destruct (decide (filename ∈ fs)) as [Hin|Hout].
  - destruct (splitext filename) as [base ext] eqn:Hsplit.
    destruct (first_free fs base ext (S (size fs)) 1
                (some_name_free fs base ext 1))
      as (k & Hk & Hbelow & Hfree).
    exists (numbered base ext (1 + k)).
    rewrite bool_decide_eq_true_2 by done. simpl negb. cbv iota.
    split; [|split; [done|split]].
    + intros fuel Hfuel. apply unique_loop_finds; [done|done|lia].
    + intros _. exists base, ext, (1 + k)%nat.
      split; [done|]. split; [by apply splitext_append|].
      assert (Hle : (k < size fs)%nat).
      { destruct (decide (k < size fs)%nat) as [|Hge]; [done|].
        assert (k = size fs) as -> by lia. exfalso.
        set (names := filename :: (numbered base ext <$> seq 1 (size fs))).
        assert (Hnd : NoDup names).
        { apply NoDup_cons. split.
          - intros Hf. apply list_elem_of_fmap in Hf as (m & Hm & _).
            apply splitext_append in Hsplit. unfold numbered in Hm.
            rewrite <- Hsplit in Hm at 1.
            apply String.app_inj in Hm.
            apply (f_equal String.length) in Hm.
            rewrite !length_append in Hm. simpl in Hm. lia.
          - apply NoDup_fmap_2_strong; [|apply NoDup_seq].
            intros n m _ _. apply numbered_inj. }
        assert (Hsub : list_to_set names ⊆ fs).
        { intros p Hp. apply elem_of_list_to_set in Hp.
          apply elem_of_cons in Hp as [->|Hp]; [done|].
          apply list_elem_of_fmap in Hp as (m & -> & Hm).
          apply elem_of_seq in Hm. apply Hbelow. lia. }
        apply subseteq_size in Hsub.
        rewrite size_list_to_set in Hsub by done.
        unfold names in Hsub. simpl in Hsub.
        rewrite length_fmap, length_seq in Hsub. lia. }
      split; [lia|]. split; [done|]. split; [done|].
      intros m Hm. apply Hbelow. lia.
    + vm_compute. reflexivity.
  - exists filename. rewrite bool_decide_eq_false_2 by done. simpl.
    split; [done|]. split; [done|]. split; [done|].
    vm_compute. reflexivity.
Qed.

(** ** Organised paths *)

Lemma pick_uploader_spec (info : option (gmap string json))
      (uploader_override : option string) :
  pick_uploader info uploader_override
  = spec_uploader (nonempty_dict info) (nonempty_str uploader_override).
Proof.
  unfold pick_uploader, spec_uploader, given_str, given_dict, nonempty_str,
    nonempty_dict, Config.get.
  destruct uploader_override as [u|]; simpl.
  - destruct (Str.is_empty u); simpl; [|done].
    destruct info as [i|]; simpl; [|done].
    destruct (bool_decide (i = ∅)); simpl; [done|].
    by destruct (i !! "uploader").
  - destruct info as [i|]; simpl; [|done].
    destruct (bool_decide (i = ∅)); simpl; [done|].
    by destruct (i !! "uploader").
Qed.

Lemma endswith_char_append (c : ascii) (a b : string) :
  b <> EmptyString ->
  Str.endswith_char c (a +:+ b) = Str.endswith_char c b.
Proof.
  intros Hb. induction a as [|d a IH]; [done|].
  rewrite append_cons. simpl. rewrite IH.
  destruct (a +:+ b) eqn:Hab; [|done].
  destruct a; [rewrite append_nil_l in Hab; congruence|done].
Qed.

Lemma is_empty_append (a b : string) :
  b <> EmptyString -> Str.is_empty (a +:+ b) = false.
Proof. intros Hb. destruct a; [by destruct b|done]. Qed.

Lemma append_assoc (a b c : string) : (a +:+ b) +:+ c = a +:+ (b +:+ c).
Proof.
  induction a as [|d a IH]; [done|]. by rewrite !append_cons, IH.
Qed.

Lemma join_step_relative (path b : string) :
  Str.startswith "/" b = false ->
  join_step path b = with_sep path +:+ b.
Proof.
  intros Hb. unfold join_step, with_sep. rewrite Hb.
  destruct (_ || _); [done|]. by rewrite append_assoc.
Qed.

Lemma os_path_join_plain (base a b : string) :
  plain a = true ->
  Str.startswith "/" b = false ->
  os_path_join base [a; b] = with_sep base +:+ a +:+ "/" +:+ b.
Proof.
  unfold plain. intros Ha Hb.
  apply andb_prop in Ha as [Ha Hend]. apply andb_prop in Ha as [Hne Hstart].
  apply negb_true_iff in Hne, Hstart, Hend.
  assert (Hane : a <> EmptyString) by (intros ->; done).
  unfold os_path_join. simpl.
  rewrite (join_step_relative base a Hstart).
  rewrite (join_step_relative _ b Hb).
  unfold with_sep at 1.
  rewrite is_empty_append, endswith_char_append, Hend by done. simpl.
  by rewrite !append_assoc.
Qed.

Lemma first_match_label (items : list (string * string)) (u : string) :
  first_match items u ∈ "Other" :: items.*2.
Proof.
  induction items as [|[d p] items IH]; simpl; [left|].
  destruct (Str.contains d u).
  - right. left.
  - apply elem_of_cons in IH as [->|IH]; [left|]. right. by right.
Qed.

Lemma detect_platform_plain (url : string) :
  plain (detect_platform_from_url url) = true.
Proof.
  unfold detect_platform_from_url.
  pose proof (first_match_label platform_map (Str.lower url)) as Hl.
  generalize dependent (first_match platform_map (Str.lower url)).
  intros label Hl.
  assert (Hall : Forall (fun a => plain a = true)
                        ("Other" :: platform_map.*2)).
  { unfold platform_map. simpl. repeat constructor. }
  rewrite Forall_forall in Hall. by apply Hall.
Qed.

Lemma replace_invalid_chars (s : string) :
  Forall (fun c => Spec.is_invalid c = false)
         (list_ascii_of_string (Spec.replace_invalid s)).
Proof.
  induction s as [|c s IH]; simpl; constructor; [|done].
  destruct (Spec.is_invalid c) eqn:Hc; [reflexivity|done].
Qed.

Lemma lstrip_chars (P : ascii -> Prop) (p : ascii -> bool) (s : string) :
  Forall P (list_ascii_of_string s) ->
  Forall P (list_ascii_of_string (Str.lstrip p s)).
Proof.
  induction s as [|c s IH]; simpl; [done|]. intros H.
  destruct (p c); [|done]. apply IH. by inversion H.
Qed.

Lemma rstrip_chars (P : ascii -> Prop) (p : ascii -> bool) (s : string) :
  Forall P (list_ascii_of_string s) ->
  Forall P (list_ascii_of_string (Str.rstrip p s)).
Proof.
  induction s as [|c s IH]; simpl; [done|]. intros H.
  inversion H as [|? ? Hc Hs]; subst. specialize (IH Hs).
  destruct (Str.rstrip p s) eqn:Hr.
  - destruct (p c); simpl; [constructor|by repeat constructor].
  - simpl. by constructor.
Qed.

Lemma take_chars (P : ascii -> Prop) (n : nat) (s : string) :
  Forall P (list_ascii_of_string s) ->
  Forall P (list_ascii_of_string (Str.take n s)).
Proof.
  revert s. induction n as [|n IH]; intros [|c s] H; simpl;
    try constructor; inversion H; subst; auto.
Qed.

Lemma sanitize_filename_relative (name : string) :
  Str.startswith "/" (sanitize_filename name) = false.
Proof.
  rewrite sanitize_filename_refines. unfold Spec.sanitize.
  destruct (bool_decide (Spec.blank name)); [reflexivity|].
  destruct (bool_decide _); [reflexivity|].
  pose proof (take_chars _ 100 _
                (rstrip_chars _ Spec.is_dot_or_space _
                   (lstrip_chars _ Spec.is_dot_or_space _
                      (replace_invalid_chars name)))) as H.
  unfold Str.strip_with.
  destruct (Str.take 100 _) as [|c r]; [reflexivity|].
  simpl in H. apply Forall_inv in H. unfold Str.startswith.
  destruct (String.prefix "/" (String c r)) eqn:Hp; [|reflexivity].
  apply prefix_spec in Hp as [post Hpost]. rewrite append_cons in Hpost.
  injection Hpost as -> _. done.
Qed.

Lemma sanitize_filename_any_relative (v : json) (name : string) :
  sanitize_filename_any v = Ok name -> Str.startswith "/" name = false.
Proof.
  unfold sanitize_filename_any.
  destruct (negb (Py.truthy v)); [by intros [= <-]|].
  destruct v; try done. intros [= <-]. apply sanitize_filename_relative.
Qed.

(** C7 as stated fails: an empty override is given, yet the uploader is
    taken from the metadata. *)
Lemma empty_override_counterexample :
  let info : option (gmap string json) :=
    Some {[ "uploader" := JString "bob" ]} in
  get_organized_download_path Config.DEFAULT_CONFIG "media" (fun _ => true)
    "https://youtu.be/xyz" info (Some EmptyString)
  = Ok "media/YouTube/bob"
  /\ spec_uploader info (Some EmptyString) = JString EmptyString
  /\ os_path_join "media" [ detect_platform_from_url "https://youtu.be/xyz";
                            sanitize_filename EmptyString ]
     = "media/YouTube/Unknown".
Proof. repeat split; vm_compute; reflexivity. Qed.

(** C7, as the code has it: with organisation disabled the base directory
    is returned as it is; with it enabled the result is the base directory,
    the platform and the sanitised uploader joined as a path, the uploader
    being the override when it is given and not empty, otherwise the
    uploader entry of non-empty metadata (its channel entry when there is no
    uploader key), otherwise ["Unknown"]; the call returns when the uploader
    can be sanitised and the directory can be created. *)
Theorem organized_download_path (config : gmap string json)
        (download_directory : string) (makedirs : string -> bool)
        (url : string) (info : option (gmap string json))
        (uploader_override : option string) :
  let enabled :=
    Py.truthy (Config.get config "organize_downloads" (JBool false)) in
  let uploader :=
    spec_uploader (nonempty_dict info) (nonempty_str uploader_override) in
  let call :=
    get_organized_download_path config download_directory makedirs url info
                                uploader_override in
  (enabled = false -> call = Ok download_directory)
  /\ (enabled = true ->
      forall name, sanitize_filename_any uploader = Ok name ->
        let path :=
          os_path_join download_directory
                       [ detect_platform_from_url url; name ] in
        path = with_sep download_directory
               +:+ detect_platform_from_url url +:+ "/" +:+ name
        /\ (makedirs path = true -> call = Ok path)
        /\ (makedirs path = false -> call = Raise OSError))
  /\ (enabled = true ->
      forall e, sanitize_filename_any uploader = Raise e -> call = Raise e)
  /\ (forall s, sanitize_filename_any (JString s) = Ok (sanitize_filename s))
  /\ sanitize_filename_any JNull = Ok "Unknown".
Proof.
  intros enabled uploader call.
  assert (Hcall : call
    = if negb enabled then Ok download_directory
      else name ← sanitize_filename_any uploader;
           let path := os_path_join download_directory
                         [ detect_platform_from_url url; name ] in
           if makedirs path then Ok path else Raise OSError).
  { unfold call, get_organized_download_path. fold enabled.
    by rewrite pick_uploader_spec. }
  split; [|split; [|split; [|split]]].
  - intros He. by rewrite Hcall, He.
  - intros He name Hname path. subst path.
    rewrite Hcall, He, Hname. simpl. split; [|split].
    + apply os_path_join_plain; [apply detect_platform_plain|].
      by eapply sanitize_filename_any_relative.
    + intros Hm. by rewrite Hm.
    + intros Hm. by rewrite Hm.
  - intros He e Hname. by rewrite Hcall, He, Hname.
  - intros s. unfold sanitize_filename_any. simpl.
    destruct s; [reflexivity|done].
  - reflexivity.
Qed.

Lemma organized_download_path_witness :
  get_organized_download_path Config.DEFAULT_CONFIG "media" (fun _ => true)
    "https://www.tiktok.com/@ann/video/1"
    (Some {[ "channel" := JString "ann: live" ]}) None
  = Ok "media/TikTok/ann_ live".
Proof.
  destruct (organized_download_path Config.DEFAULT_CONFIG "media"
              (fun _ => true) "https://www.tiktok.com/@ann/video/1"
              (Some {[ "channel" := JString "ann: live" ]}) None)
    as (_ & Henabled & _).
  destruct (Henabled ltac:(vm_compute; reflexivity) "ann_ live"
                     ltac:(vm_compute; reflexivity))
    as (_ & Hcreated & _).
  apply Hcreated. reflexivity.
Defined.

Import Vault.

(** ** Credentials *)

Section VaultFacts.

Context {L : Library} {Laws : LibraryLaws L}.

Lemma get_encryption_key_stored (r : entropy) (st : store) (key : bytes) :
  key_file st = Some key -> _get_encryption_key r st = Ok (key, st).
Proof. intros H. unfold _get_encryption_key. by rewrite H. Qed.

Lemma get_encryption_key_ready (r : entropy) (st : store) :
  key_ready st = true ->
  exists key st',
    _get_encryption_key r st = Ok (key, st')
    /\ key_file st' = Some key
    /\ valid_key key = true
    /\ (is_Some (key_file st) -> st' = st).
Proof.
  unfold key_ready, _get_encryption_key.
  destruct (key_file st) as [key|] eqn:Hk.
  - intros Hv. exists key, st. by repeat split.
  - intros ->. eexists _, _. split; [reflexivity|]. simpl.
    split; [done|]. split; [apply generate_key_valid|].
    by intros [? ?].
Qed.

Lemma decrypt_with_encrypted (key : bytes) (r : entropy) (s text : string) :
  valid_key key = true ->
  decode (urlsafe_b64encode (fernet_encrypt key r (encode s))) = Some text ->
  decrypt_with key text = Some s.
Proof.
  intros Hv Htext. unfold decrypt_with. rewrite Hv. simpl.
  destruct (b64_text (fernet_encrypt key r (encode s)))
    as (text' & Hdec & Henc).
  rewrite Htext in Hdec. injection Hdec as <-.
  rewrite Henc, b64_roundtrip. simpl.
  rewrite fernet_roundtrip by done. simpl. apply utf8_roundtrip.
Qed.

(** C9: under a usable key store, what [_encrypt_credential] returns is
    decrypted back to the credential; and [_decrypt_credential] returns the
    empty string, without raising, whenever decoding, authenticated
    decryption or text decoding fails, as on ["garbage"]. *)
Theorem credential_roundtrip (st : store) (r1 r2 r3 : entropy) (s : string) :
  key_ready st = true ->
  exists ciphertext st',
    _encrypt_credential r1 r2 s st = Ok (ciphertext, st')
    /\ (is_Some (key_file st) -> st' = st)
    /\ _decrypt_credential r3 ciphertext st' = (s, st')
    /\ (forall x key, key_file st' = Some key -> decrypt_with key x = None ->
                      _decrypt_credential r3 x st' = (EmptyString, st'))
    /\ _decrypt_credential r3 "garbage" st' = (EmptyString, st')
    /\ (forall st0 r x,
          (_decrypt_credential r x st0).1 = EmptyString
          \/ exists key, decrypt_with key x
                         = Some (_decrypt_credential r x st0).1).
Proof.
  intros Hready.
  destruct (get_encryption_key_ready r1 st Hready)
    as (key & st' & Hget & Hfile & Hvalid & Hsame).
  destruct (b64_text (fernet_encrypt key r2 (encode s)))
    as (text & Hdec & Henc).
  exists text, st'.
  assert (Hdecrypt : forall x,
            _decrypt_credential r3 x st'
            = (default EmptyString (decrypt_with key x), st')).
  { intros x. unfold _decrypt_credential.
    by rewrite (get_encryption_key_stored r3 st' key Hfile). }
  split; [|split; [|split; [|split; [|split]]]].
  - unfold _encrypt_credential. rewrite Hget. simpl.
    by rewrite Hvalid, Hdec.
  - exact Hsame.
  - rewrite Hdecrypt.
    by rewrite (decrypt_with_encrypted key r2 s text Hvalid Hdec).
  - intros x key' Hkey' Hnone. rewrite Hfile in Hkey'. injection Hkey' as <-.
    by rewrite Hdecrypt, Hnone.
  - rewrite Hdecrypt. unfold decrypt_with. rewrite Hvalid. simpl.
    by rewrite b64_padding.
  - intros st0 r x. unfold _decrypt_credential.
    destruct (_get_encryption_key r st0) as [[key0 st0']|e]; [|by left].
    simpl. destruct (decrypt_with key0 x) as [plain|] eqn:Hd; [|by left].
    right. by exists key0.
Qed.

End VaultFacts.

#[local] Instance toy_laws : LibraryLaws Toy.library.
Proof.
  split.
  - reflexivity.
  - reflexivity.
  - intros data. reflexivity.
  - intros data. eexists. split; [reflexivity|]. simpl.
    apply list_byte_of_string_of_list_byte.
  - intros s. simpl. by rewrite string_of_list_byte_of_string.
  - reflexivity.
Qed.

Lemma credential_roundtrip_witness :
  let st := {| key_file := None; key_writable := true |} in
  let secret := "p" +:+ String "228"%char "ssword" in
  exists ciphertext st',
    @_encrypt_credential Toy.library tt tt secret st = Ok (ciphertext, st')
    /\ @_decrypt_credential Toy.library tt ciphertext st' = (secret, st').
Proof.
  destruct (@credential_roundtrip Toy.library toy_laws
              {| key_file := None; key_writable := true |} tt tt tt
              ("p" +:+ String "228"%char "ssword") eq_refl)
    as (ciphertext & st' & Henc & _ & Hdec & _).
  by exists ciphertext, st'.
Defined.

(** * Further properties *)

Import Text Version Urls Formats.

Lemma parse_digits_pretty_go (x : N) :
  (0 < x)%N ->
  forall s, exists ds,
    pretty_N_go x s = ds +:+ s
    /\ ds <> EmptyString
    /\ Forall (fun c => is_Some (Py.digit_of c)) (list_ascii_of_string ds)
    /\ forall acc nd pd rest,
         Py.parse_digits (ds +:+ rest) acc nd pd
         = Py.parse_digits rest
             (acc * 10 ^ Z.of_nat (String.length ds) + Z.of_N x)%Z
             (nd + String.length ds) true.
Proof.
  induction (N.lt_wf_0 x) as [x _ IH]. intros Hx s.
  rewrite pretty_N_go_step by done.
  assert (Hd : exists d, Py.digit_of (pretty_N_char (x mod 10)) = Some d
                         /\ d = Z.of_N (x mod 10)).
  { assert (Hm : (x mod 10 < 10)%N) by (apply N.mod_lt; lia).
    generalize dependent (x mod 10)%N. intros m Hm.
    assert (Hc : (m = 0 \/ m = 1 \/ m = 2 \/ m = 3 \/ m = 4 \/ m = 5
                  \/ m = 6 \/ m = 7 \/ m = 8 \/ m = 9)%N) by lia.
    destruct Hc as [H|[H|[H|[H|[H|[H|[H|[H|[H|H]]]]]]]]]; rewrite H;
      eexists; split; reflexivity. }
  destruct Hd as (d & Hd & Hdv).
  destruct (decide (x / 10 = 0)%N) as [Hz|Hnz].
  - rewrite Hz, pretty_N_go_0.
    exists (String (pretty_N_char (x mod 10)) EmptyString).
    split; [done|]. split; [done|]. split.
    { repeat constructor. by rewrite Hd. }
    intros acc nd pd rest. rewrite append_cons, append_nil_l. simpl.
    rewrite Hd. f_equal; [|lia].
    assert (Hdm : (x = 10 * (x / 10) + x mod 10)%N) by (apply N.div_mod; lia).
    rewrite Hz in Hdm. lia.
  - destruct (IH (x / 10)%N) with
      (s := String (pretty_N_char (x mod 10)) s)
      as (ds & Hgo & Hne & Hall & Hparse).
    { apply N.div_lt; lia. }
    { by apply N.neq_0_lt_0. }
    exists (ds +:+ String (pretty_N_char (x mod 10)) EmptyString).
    split; [by rewrite Hgo, append_assoc, append_cons, append_nil_l|].
    split; [by destruct ds|]. split.
    { rewrite list_ascii_of_string_app. apply Forall_app. split; [done|].
      repeat constructor. by rewrite Hd. }
    intros acc nd pd rest.
    rewrite append_assoc, append_cons, append_nil_l, Hparse. simpl.
    rewrite Hd, length_append. simpl. f_equal; [|lia].
    rewrite Nat2Z.inj_add, Z.pow_add_r by lia.
    assert (Hdm : (x = 10 * (x / 10) + x mod 10)%N) by (apply N.div_mod; lia).
    change (10 ^ Z.of_nat 1)%Z with 10%Z. rewrite Hdv. lia.
Qed.

Lemma strip_with_id (p : ascii -> bool) (s : string) :
  Forall (fun c => p c = false) (list_ascii_of_string s) ->
  Str.strip_with p s = s.
Proof.
  intros H. unfold Str.strip_with.
  assert (Hl : Str.lstrip p s = s).
  { destruct s as [|c s]; [done|]. simpl. inversion H; subst.
    by rewrite H2. }
  rewrite Hl. clear Hl. induction s as [|c s IH]; [done|].
  inversion H as [|? ? Hc Hs]; subst. simpl. rewrite (IH Hs), Hc.
  by destruct s.
Qed.


Lemma digit_numeral_char (ds : string) :
  Forall (fun c => is_Some (Py.digit_of c)) (list_ascii_of_string ds) ->
  Forall numeral_char (list_ascii_of_string ds).
Proof. intros H. eapply Forall_impl; [exact H|]. intros c Hc. by left. Qed.

Lemma numeral_char_not_space (c : ascii) :
  numeral_char c \/ c = "."%char -> Str.is_space c = false.
Proof.
  intros [[[d Hd]| ->]| ->]; [|reflexivity..].
  unfold Py.digit_of in Hd. unfold Str.is_space.
  destruct (_ && _)%nat eqn:Hr in Hd; [|done].
  apply andb_prop in Hr as [H1 H2].
  apply Nat.leb_le in H1, H2.
  repeat match goal with
         | |- context [(?a <=? ?b)%nat] =>
             destruct (Nat.leb_spec a b); try lia
         | |- context [(?a =? ?b)%nat] =>
             destruct (Nat.eqb_spec a b); try lia
         end; reflexivity.
Qed.

Lemma pretty_positive_digits (p : positive) :
  exists ds,
    pretty (Npos p) = ds
    /\ ds <> EmptyString
    /\ Forall (fun c => is_Some (Py.digit_of c)) (list_ascii_of_string ds)
    /\ Py.parse_unsigned ds
       = if (Py.int_max_str_digits <? String.length ds)%nat then None
         else Some (Zpos p).
Proof.
  destruct (parse_digits_pretty_go (Npos p) ltac:(done) EmptyString)
    as (ds & Hgo & Hne & Hall & Hparse).
  assert (Hr : forall a, a +:+ EmptyString = a).
  { intros a. induction a as [|c a IH]; [done|]. by rewrite append_cons, IH. }
  rewrite Hr in Hgo.
  exists ds. split; [exact Hgo|]. split; [done|]. split; [done|].
  unfold Py.parse_unsigned. specialize (Hparse 0%Z 0%nat false EmptyString).
  rewrite Hr in Hparse. rewrite Hparse. simpl. done.
Qed.

Lemma int_of_str_pretty (z : Z) :
  (String.length (pretty (Z.abs z)) <= Py.int_max_str_digits)%nat ->
  Py.int_of_str (pretty z) = Some z
  /\ Forall numeral_char (list_ascii_of_string (pretty z)).
Proof.
  intros Hlen. destruct z as [|p|p].
  - split; [reflexivity|]. constructor; [|constructor]. left. by eexists.
  - destruct (pretty_positive_digits p) as (ds & Hds & Hne & Hall & Hparse).
    change (pretty (Z.pos p)) with (pretty (Npos p)).
    change (String.length (pretty (Npos p)) <= Py.int_max_str_digits)%nat
      in Hlen.
    rewrite Hds in *. split; [|by apply digit_numeral_char].
    unfold Py.int_of_str, Str.strip. rewrite strip_with_id.
    2:{ eapply Forall_impl; [exact Hall|]. intros c Hc.
        apply numeral_char_not_space. left. by left. }
    destruct (Nat.ltb_spec Py.int_max_str_digits (String.length ds));
      [lia|].
    destruct ds as [|c ds]; [done|]. inversion Hall as [|? ? [d Hd] _]; subst.
    destruct (Ascii.eqb_spec c "+"%char) as [->|H1]; [done|].
    destruct (Ascii.eqb_spec c "-"%char) as [->|H2]; [done|].
    rewrite <- Hparse.
    destruct c as [[] [] [] [] [] [] [] []]; try done.
  - destruct (pretty_positive_digits p) as (ds & Hds & Hne & Hall & Hparse).
    change (String.length (pretty (Npos p)) <= Py.int_max_str_digits)%nat
      in Hlen.
    change (pretty (Z.neg p)) with ("-" +:+ pretty (Npos p)).
    rewrite Hds in *. rewrite append_cons, append_nil_l. split.
    2:{ constructor; [by right|by apply digit_numeral_char]. }
    unfold Py.int_of_str, Str.strip. rewrite strip_with_id.
    2:{ constructor; [reflexivity|].
        eapply Forall_impl; [exact Hall|]. intros c Hc.
        apply numeral_char_not_space. left. by left. }
    rewrite Hparse.
    destruct (Nat.ltb_spec Py.int_max_str_digits (String.length ds));
      [lia|done].
Qed.

Lemma split_from_cons (sep : string) (skip : nat) (c : ascii) (r : string) :
  split_from sep skip (String c r)
  = match skip with
    | S k => split_from sep k r
    | O =>
        if String.prefix sep (String c r)
        then EmptyString :: split_from sep (String.length sep - 1) r
        else
          match split_from sep 0 r with
          | piece :: pieces => String c piece :: pieces
          | [] => [String c EmptyString]
          end
    end.
Proof. reflexivity. Qed.

Lemma split_from_nonempty (sep : string) (skip : nat) (s : string) :
  split_from sep skip s <> [].
Proof.
  revert skip. induction s as [|c s IH]; intros skip; [done|].
  rewrite split_from_cons.
  destruct skip; [|apply IH]. destruct (String.prefix sep (String c s));
    [done|]. by destruct (split_from sep 0 s).
Qed.

Lemma split_char_cons (c d : ascii) (r : string) :
  split (String c EmptyString) (String d r)
  = if Ascii.eqb d c then EmptyString :: split (String c EmptyString) r
    else match split (String c EmptyString) r with
         | piece :: pieces => String d piece :: pieces
         | [] => [String d EmptyString]
         end.
Proof.
  unfold split. simpl. destruct (ascii_dec c d) as [->|Hne].
  - rewrite Ascii.eqb_refl. by destruct r.
  - destruct (Ascii.eqb_spec d c) as [->|_]; done.
Qed.

Lemma split_char_app (c : ascii) (a rest : string) :
  Forall (fun d => d <> c) (list_ascii_of_string a) ->
  split (String c EmptyString) (a +:+ String c rest)
  = a :: split (String c EmptyString) rest.
Proof.
  induction a as [|d a IH]; intros H.
  - rewrite append_nil_l, split_char_cons. by rewrite Ascii.eqb_refl.
  - inversion H as [|? ? Hd Ha]; subst.
    rewrite append_cons, split_char_cons, (IH Ha).
    by destruct (Ascii.eqb_spec d c).
Qed.

Lemma split_char_none (c : ascii) (a : string) :
  Forall (fun d => d <> c) (list_ascii_of_string a) ->
  split (String c EmptyString) a = [a].
Proof.
  induction a as [|d a IH]; intros H; [done|].
  inversion H as [|? ? Hd Ha]; subst.
  rewrite split_char_cons, (IH Ha). by destruct (Ascii.eqb_spec d c).
Qed.

Lemma split_concat (c : ascii) (parts : list string) :
  parts <> [] ->
  Forall (fun a => Forall (fun d => d <> c) (list_ascii_of_string a)) parts ->
  split (String c EmptyString) (String.concat (String c EmptyString) parts)
  = parts.
Proof.
  induction parts as [|a parts IH]; [done|]. intros _ H.
  inversion H as [|? ? Ha Hparts]; subst.
  destruct parts as [|b parts].
  - simpl. by apply split_char_none.
  - change (String.concat (String c EmptyString) (a :: b :: parts))
      with (a +:+ String c EmptyString
              +:+ String.concat (String c EmptyString) (b :: parts)).
    rewrite append_cons, append_nil_l, split_char_app by done.
    by rewrite IH.
Qed.

Lemma concat_chars (P : ascii -> Prop) (sep : string) (parts : list string) :
  Forall P (list_ascii_of_string sep) ->
  Forall (fun a => Forall P (list_ascii_of_string a)) parts ->
  Forall P (list_ascii_of_string (String.concat sep parts)).
Proof.
  intros Hsep. induction parts as [|a parts IH]; intros H; [constructor|].
  inversion H as [|? ? Ha Hparts]; subst. destruct parts as [|b parts].
  - done.
  - change (String.concat sep (a :: b :: parts))
      with (a +:+ sep +:+ String.concat sep (b :: parts)).
    rewrite !list_ascii_of_string_app. rewrite !Forall_app. auto.
Qed.

Lemma parse_version_numerals (t : list Z) :
  t <> [] ->
  Forall (fun z => (String.length (pretty (Z.abs z))
                    <= Py.int_max_str_digits)%nat) t ->
  _parse_version (String.concat "." (pretty <$> t)) = t.
Proof.
  intros Hne Hall. unfold _parse_version, Str.strip.
  assert (Hchars : Forall (fun a => Forall numeral_char
                                      (list_ascii_of_string a))
                          (pretty <$> t)).
  { apply Forall_fmap. eapply Forall_impl; [exact Hall|].
    intros z Hz. by apply int_of_str_pretty. }
  rewrite strip_with_id.
  2:{ apply (concat_chars (fun c => Str.is_space c = false)).
      - by repeat constructor.
      - eapply Forall_impl; [exact Hchars|]. intros a Ha.
        eapply Forall_impl; [exact Ha|]. intros c Hc.
        apply numeral_char_not_space. by left. }
  rewrite split_concat.
  2:{ by destruct t. }
  2:{ eapply Forall_impl; [exact Hchars|]. intros a Ha.
      eapply Forall_impl; [exact Ha|]. intros c [[d Hd]| ->]; [|done].
      intros ->. done. }
  assert (Hm : mapM Py.int_of_str (pretty <$> t) = Some t).
  { clear Hne Hchars. induction Hall as [|z t Hz Hall IH]; [done|].
    rewrite fmap_cons. simpl.
    destruct (int_of_str_pretty z Hz) as [-> _]. simpl. by rewrite IH. }
  by rewrite Hm.
Qed.

(** X1: a version written as integers joined by dots is parsed back to
    those integers: [_parse_version] inverts the dotted decimal notation
    for every non-empty tuple whose components have at most 4300 digits
    (beyond that bound [int] refuses the text). *)
Theorem parse_version_roundtrip (t : list Z) :
  t <> [] ->
  Forall (fun z => (String.length (pretty (Z.abs z))
                    <= Py.int_max_str_digits)%nat) t ->
  _parse_version (String.concat "." (pretty <$> t)) = t.
Proof. apply parse_version_numerals. Qed.

Lemma parse_version_roundtrip_witness :
  _parse_version "2.0.-7" = [2; 0; -7]%Z.
Proof.
  replace "2.0.-7" with (String.concat "." (pretty <$> [2; 0; -7]%Z))
    by (vm_compute; reflexivity).
  apply parse_version_roundtrip; [done|].
  repeat (constructor; [apply Nat.leb_le; vm_compute; reflexivity|]).
  constructor.
Defined.

Lemma parse_version_unparseable (latest part : string) :
  part ∈ split "." (Str.strip latest) ->
  Py.int_of_str part = None ->
  _parse_version latest = [0; 0; 0]%Z.
Proof.
  intros Hin Hpart. unfold _parse_version.
  destruct (mapM _ _) as [t|] eqn:Hm; [|done].
  assert (Hs : is_Some (mapM Py.int_of_str (split "." (Str.strip latest))))
    by (by rewrite Hm).
  apply mapM_is_Some in Hs. rewrite Forall_forall in Hs.
  specialize (Hs part Hin). simpl in Hs. rewrite Hpart in Hs.
  by destruct Hs.
Qed.

(** X2: when one dot-separated component of the latest version is not an
    integer literal (a pre-release such as 2.0.0rc1, or the fallback text
    Unknown), [_parse_version] gives (0, 0, 0) and [check_for_updates]
    takes its development-version branch: no update is announced. *)
Theorem version_status_unparseable (latest part : string) :
  part ∈ split "." (Str.strip latest) ->
  Py.int_of_str part = None ->
  _parse_version latest = [0; 0; 0]%Z
  /\ version_status latest = DevelopmentVersion.
Proof.
  intros Hin Hpart.
  pose proof (parse_version_unparseable latest part Hin Hpart) as H.
  split; [done|]. unfold version_status. by rewrite H.
Qed.

Lemma version_status_unparseable_witness :
  version_status "2.0.0rc1" = DevelopmentVersion.
Proof.
  apply (version_status_unparseable "2.0.0rc1" "0rc1").
  - vm_compute. do 2 right. left.
  - reflexivity.
Defined.

(** X3: for a latest version a.b.c made of three integers,
    [check_for_updates] takes the update branch exactly when (a, b, c) is
    greater than (1, 1, 12) in the lexicographic order of integers, and
    the up-to-date branch exactly when the two are equal. *)
Theorem version_status_numeric (a b c : Z) :
  Forall (fun z => (String.length (pretty (Z.abs z))
                    <= Py.int_max_str_digits)%nat) [a; b; c] ->
  let latest := String.concat "." [pretty a; pretty b; pretty c] in
  (version_status latest = UpdateAvailable
   <-> (1 < a \/ (a = 1 /\ (1 < b \/ (b = 1 /\ 12 < c))))%Z)
  /\ (version_status latest = UpToDate <-> (a = 1 /\ b = 1 /\ c = 12)%Z).
Proof.
  intros Hall latest. unfold version_status.
  assert (Hcur : _parse_version CURRENT_VERSION = [1; 1; 12]%Z)
    by (vm_compute; reflexivity).
  assert (Hlat : _parse_version latest = [a; b; c]).
  { apply (parse_version_numerals [a; b; c]); done. }
  rewrite Hcur, Hlat. clear. cbn [tuple_lt].
  destruct (Z.eqb_spec 1 a) as [<-|Ha].
  - destruct (Z.eqb_spec 1 b) as [<-|Hb].
    + destruct (Z.eqb_spec 12 c) as [<-|Hc].
      * rewrite bool_decide_eq_true_2 by done. split; split; try done; lia.
      * destruct (Z.ltb_spec 12 c).
        -- split; split; try done; lia.
        -- case_bool_decide as Heq; [congruence|].
           split; split; try done; lia.
    + destruct (Z.ltb_spec 1 b).
      * split; split; try done; lia.
      * case_bool_decide as Heq; [congruence|].
        split; split; try done; lia.
  - destruct (Z.ltb_spec 1 a).
    + split; split; try done; lia.
    + case_bool_decide as Heq; [congruence|].
      split; split; try done; lia.
Qed.

Lemma version_status_numeric_witness :
  version_status "1.2.0" = UpdateAvailable.
Proof.
  replace "1.2.0" with (String.concat "." [pretty 1%Z; pretty 2%Z; pretty 0%Z])
    by (vm_compute; reflexivity).
  destruct (version_status_numeric 1 2 0) as [[_ H] _].
  - repeat (constructor; [apply Nat.leb_le; vm_compute; reflexivity|]).
    constructor.
  - apply H. lia.
Defined.


(** ** Splitting *)

Lemma split_from_skip (sep u t : string) :
  split_from sep (String.length u) (u +:+ t) = split_from sep 0 t.
Proof.
  induction u as [|c u IH]; [by rewrite append_nil_l|].
  by rewrite append_cons, split_from_cons.
Qed.

Lemma drop_append (a b : string) : Str.drop (String.length a) (a +:+ b) = b.
Proof.
  induction a as [|c a IH]; [by rewrite append_nil_l; destruct b|].
  by rewrite append_cons.
Qed.

(** The first piece of a split, and what follows it. *)
Lemma split_spec (sep s : string) :
  sep <> EmptyString ->
  exists pre rest,
    s = pre +:+ rest
    /\ (forall i, (i < String.length pre)%nat ->
                  String.prefix sep (Str.drop i s) = false)
    /\ ((rest = EmptyString /\ split sep s = [pre])
        \/ exists post, rest = sep +:+ post
                        /\ split sep s = pre :: split sep post).
Proof.
  intros Hsep. induction s as [|c s IH].
  - exists EmptyString, EmptyString. split; [done|]. split.
    { intros i Hi. simpl in Hi. lia. }
    by left.
  - unfold split. rewrite split_from_cons.
    destruct (String.prefix sep (String c s)) eqn:Hp.
    + exists EmptyString, (String c s). split; [by rewrite append_nil_l|].
      split; [intros i Hi; simpl in Hi; lia|]. right.
      apply prefix_spec in Hp as [post Hpost]. exists post. split; [done|].
      destruct sep as [|d sep']; [done|].
      rewrite append_cons in Hpost. injection Hpost as -> ->.
      f_equal. simpl. rewrite Nat.sub_0_r. apply split_from_skip.
    + destruct IH as (pre & rest & Hs & Hleft & Hsplit).
      exists (String c pre), rest. split; [by rewrite append_cons, Hs at 1|].
      split.
      { intros [|i] Hi; [exact Hp|]. simpl in *. apply Hleft. lia. }
      fold (split sep s).
      destruct Hsplit as [[-> Hsplit]|(post & -> & Hsplit)]; rewrite Hsplit.
      * by left.
      * right. by exists post.
Qed.

Lemma no_prefix_no_occurrence (sep s : string) :
  sep <> EmptyString ->
  (forall i, (i < String.length s)%nat ->
             String.prefix sep (Str.drop i s) = false) ->
  Str.contains sep s = false.
Proof.
  intros Hsep. induction s as [|c s IH]; intros H.
  - rewrite contains_nil. by destruct sep.
  - rewrite contains_cons.
    assert (H0 : String.prefix sep (String c s) = false)
      by (apply (H 0%nat); simpl; lia).
    rewrite H0. apply IH. intros i Hi. apply (H (S i)). simpl. lia.
Qed.

Lemma split_head (sep s : string) :
  sep <> EmptyString ->
  exists piece rest,
    item (split sep s) 0 = Returns piece
    /\ s = piece +:+ rest
    /\ Str.contains sep piece = false
    /\ (rest = EmptyString \/ String.prefix sep rest = true).
Proof.
  intros Hsep. destruct (split_spec sep s Hsep)
    as (pre & rest & Hs & Hleft & Hsplit).
  exists pre, rest. split.
  { by destruct Hsplit as [[_ ->]|(post & _ & ->)]. }
  split; [done|]. split.
  - apply no_prefix_no_occurrence; [done|]. intros i Hi.
    specialize (Hleft i Hi).
    destruct (String.prefix sep (Str.drop i pre)) eqn:Hp; [|done].
    apply prefix_spec in Hp as [post Hpost].
    assert (Hd : Str.drop i s = Str.drop i pre +:+ rest).
    { rewrite Hs. clear -Hi. revert i Hi.
      induction pre as [|c pre IH]; intros i Hi; [simpl in Hi; lia|].
      destruct i as [|i]; [done|]. rewrite append_cons. simpl.
      destruct (decide (i < String.length pre)%nat) as [Hlt|Hge].
      - by apply IH.
      - simpl in Hi. lia. }
    rewrite Hd, Hpost, append_assoc in Hleft.
    assert (String.prefix sep (sep +:+ (post +:+ rest)) = true)
      by (apply prefix_spec; eauto).
    congruence.
  - destruct Hsplit as [[-> _]|(post & -> & _)]; [by left|right].
    apply prefix_spec. eauto.
Qed.

Lemma shortcode_after_spec (m url : string) :
  let marker := String "/" m in
  Str.contains marker url = true ->
  exists code,
    shortcode_after marker url = Returns (Some code)
    /\ follows_marker marker url code.
Proof.
  intros marker Hc.
  destruct (split_spec marker url ltac:(done))
    as (pre & rest & Hurl & Hleft & Hsplit).
  destruct Hsplit as [[-> Hsplit]|(post & -> & Hsplit)].
  { rewrite (no_prefix_no_occurrence marker url) in Hc; [done|done|].
    intros i Hi. apply Hleft.
    assert (Hr : pre +:+ EmptyString = pre).
    { clear. induction pre as [|c a IH]; [done|].
      by rewrite append_cons, IH. }
    by rewrite Hurl, Hr in Hi. }
  destruct (split_head marker post ltac:(done))
    as (seg & rest2 & Hseg & Hpost & _ & Hrest2).
  destruct (split_head "/" seg ltac:(done))
    as (code & rest3 & Hcode & Hsegs & Hno & Hrest3).
  exists code. split.
  - unfold shortcode_after. rewrite Hsplit.
    change (item (pre :: split marker post) 1)
      with (item (split marker post) 0).
    by rewrite Hseg, Hcode.
  - exists pre, (rest3 +:+ rest2). split.
    { by rewrite Hurl, Hpost, Hsegs, !append_assoc. }
    split; [done|]. split.
    { intros Hocc. apply contains_spec in Hocc. congruence. }
    destruct Hrest3 as [->|H3].
    + rewrite append_nil_l. destruct Hrest2 as [->|H2]; [by left|right].
      apply prefix_spec in H2 as [x ->]. unfold marker, Str.startswith.
      apply prefix_spec. by exists (m +:+ x).
    + right. apply prefix_spec in H3 as [x ->]. unfold Str.startswith.
      apply prefix_spec. by exists (x +:+ rest2).
Qed.

Lemma not_contains_spec (needle hay : string) :
  Str.contains needle hay = false <-> ~ occurs_in needle hay.
Proof.
  rewrite <- contains_spec. by destruct (Str.contains needle hay).
Qed.

(** X4: [_extract_instagram_shortcode] never fails on an index.  It
    returns [None] exactly when none of /reel/, /p/, /tv/ occurs in the
    URL; otherwise the marker used is the first of the three, in that
    order, that occurs, and the result is the text that follows the
    leftmost occurrence of that marker, up to the next slash or to the end
    of the URL: it contains no slash, and may be empty. *)
Theorem extract_instagram_shortcode_spec (url : string) :
  match _extract_instagram_shortcode url with
  | Raises _ | RaisesLookupError => False
  | Returns None =>
      ~ occurs_in "/reel/" url /\ ~ occurs_in "/p/" url
      /\ ~ occurs_in "/tv/" url
  | Returns (Some code) =>
      (occurs_in "/reel/" url /\ follows_marker "/reel/" url code)
      \/ (~ occurs_in "/reel/" url /\ occurs_in "/p/" url
          /\ follows_marker "/p/" url code)
      \/ (~ occurs_in "/reel/" url /\ ~ occurs_in "/p/" url
          /\ occurs_in "/tv/" url /\ follows_marker "/tv/" url code)
  end.
Proof.
  unfold _extract_instagram_shortcode.
  destruct (Str.contains "/reel/" url) eqn:Hreel.
  { destruct (shortcode_after_spec "reel/" url Hreel) as (code & -> & Hf).
    left. split; [by apply contains_spec|done]. }
  apply not_contains_spec in Hreel.
  destruct (Str.contains "/p/" url) eqn:Hp.
  { destruct (shortcode_after_spec "p/" url Hp) as (code & -> & Hf).
    right. left. split; [done|]. split; [by apply contains_spec|done]. }
  apply not_contains_spec in Hp.
  destruct (Str.contains "/tv/" url) eqn:Htv.
  { destruct (shortcode_after_spec "tv/" url Htv) as (code & -> & Hf).
    right. right. split; [done|]. split; [done|].
    split; [by apply contains_spec|done]. }
  apply not_contains_spec in Htv. done.
Qed.

(** ** Accepted URLs *)

Lemma is_valid_platform_url_spec (url : string) (allowed : list string) :
  is_valid_platform_url url allowed = true
  <-> exists domain, domain ∈ allowed /\ occurs_in domain (Str.lower url).
Proof.
  unfold is_valid_platform_url. rewrite existsb_exists. split.
  - intros (d & Hin & Hc). exists d. split; [by apply list_elem_of_In|].
    by apply contains_spec.
  - intros (d & Hin & Hc). exists d. split; [by apply list_elem_of_In|].
    by apply contains_spec.
Qed.

Lemma first_match_found (items : list (string * string)) (u : string) :
  first_match items u <> "Other" ->
  exists domain,
    (domain, first_match items u) ∈ items /\ Str.contains domain u = true.
Proof.
  intros Hne.
  destruct (proj1 (first_match_spec items u (first_match items u)) eq_refl)
    as [(i & d & Hi & Hc & _)|[Ho _]]; [|done].
  exists d. split; [|done]. by eapply list_elem_of_lookup_2.
Qed.

Lemma first_match_cons (domain platform : string)
      (rest : list (string * string)) (u : string) :
  first_match ((domain, platform) :: rest) u
  = if Str.contains domain u then platform else first_match rest u.
Proof. reflexivity. Qed.

(** X5: a URL that [detect_platform_from_url] files under a platform
    other than Other and Instagram passes [is_valid_platform_url] against
    [SUPPORTED_DOMAINS]; it is filed under Instagram exactly when it passes
    against [INSTAGRAM_DOMAINS] and names none of youtube.com, youtu.be and
    tiktok.com. *)
Theorem detected_platform_is_accepted (url : string) :
  let u := Str.lower url in
  (detect_platform_from_url url <> "Other" ->
   detect_platform_from_url url <> "Instagram" ->
   is_valid_platform_url url SUPPORTED_DOMAINS = true)
  /\ (detect_platform_from_url url = "Instagram"
      <-> is_valid_platform_url url INSTAGRAM_DOMAINS = true
          /\ Str.contains "youtube.com" u = false
          /\ Str.contains "youtu.be" u = false
          /\ Str.contains "tiktok.com" u = false).
Proof.
  intros u. split.
  - intros Hother Hinsta. unfold detect_platform_from_url in *. fold u in Hother, Hinsta.
    destruct (first_match_found platform_map u Hother) as (d & Hin & Hc).
    revert Hinsta. generalize dependent (first_match platform_map u).
    intros label _ Hin Hinsta.
    unfold is_valid_platform_url. fold u. apply existsb_exists.
    exists d. split; [|done].
    assert (Hall : forallb (fun dp : string * string =>
                              String.eqb dp.2 "Instagram"
                              || existsb (String.eqb dp.1) SUPPORTED_DOMAINS)
                           platform_map = true) by (vm_compute; reflexivity).
    rewrite forallb_forall in Hall. apply list_elem_of_In in Hin.
    specialize (Hall _ Hin). cbv beta in Hall. cbn [fst snd] in Hall.
    apply orb_true_iff in Hall as [Heq|Hex].
    + by apply String.eqb_eq in Heq.
    + apply existsb_exists in Hex as (x & Hx & Heq).
      apply String.eqb_eq in Heq. by subst.
  - unfold detect_platform_from_url, is_valid_platform_url, INSTAGRAM_DOMAINS.
    fold u. unfold platform_map. do 4 rewrite first_match_cons.
    cbn [existsb]. rewrite orb_false_r.
    destruct (Str.contains "youtube.com" u); [by split; [|intros (_ & ? & _)]|].
    destruct (Str.contains "youtu.be" u);
      [by split; [|intros (_ & _ & ? & _)]|].
    destruct (Str.contains "tiktok.com" u);
      [by split; [|intros (_ & _ & _ & ?)]|].
    destruct (Str.contains "instagram.com" u); [done|].
    split; [|by intros [? _]]. intros H.
    match type of H with
    | first_match ?items u = _ =>
        pose proof (first_match_label items u) as Hl; rewrite H in Hl
    end.
    exfalso. clear -Hl. simpl in Hl.
    repeat (apply elem_of_cons in Hl as [Hl|Hl]; [discriminate Hl|]).
    by apply elem_of_nil in Hl.
Qed.

(** ** Safe names *)




Lemma prefix_char (c d : ascii) (r : string) :
  String.prefix (String c EmptyString) (String d r) = true -> d = c.
Proof.
  intros H. apply prefix_spec in H as [post H].
  rewrite append_cons in H. by injection H as -> _.
Qed.




(** ** The two closed sets *)

Lemma pretty_numeral_chars (z : Z) :
  Forall numeral_char (list_ascii_of_string (pretty z)).
Proof.
  destruct z as [|p|p].
  - constructor; [|constructor]. left. by eexists.
  - destruct (pretty_positive_digits p) as (ds & Hds & _ & Hall & _).
    change (pretty (Z.pos p)) with (pretty (Npos p)). rewrite Hds.
    by apply digit_numeral_char.
  - destruct (pretty_positive_digits p) as (ds & Hds & _ & Hall & _).
    change (pretty (Z.neg p)) with ("-" +:+ pretty (Npos p)).
    rewrite Hds, append_cons, append_nil_l.
    constructor; [by right|by apply digit_numeral_char].
Qed.


Lemma numeral_charb_spec (s : string) :
  Forall numeral_char (list_ascii_of_string s) ->
  forallb numeral_charb (list_ascii_of_string s) = true.
Proof.
  intros H. apply forallb_forall. intros c Hin.
  rewrite Forall_forall in H. apply list_elem_of_In in Hin.
  destruct (H c Hin) as [Hd| ->]; [|done].
  unfold numeral_charb. by rewrite bool_decide_eq_true_2.
Qed.

Lemma lower_numeral (s : string) :
  Forall numeral_char (list_ascii_of_string s) -> Str.lower s = s.
Proof.
  induction s as [|c s IH]; [done|]. intros H.
  inversion H as [|? ? Hc Hs]; subst. simpl. rewrite (IH Hs). f_equal.
  destruct Hc as [[d Hd]| ->]; [|done].
  unfold Py.digit_of in Hd. unfold Str.lower_char.
  destruct (_ && _)%nat eqn:Hr in Hd; [|done].
  apply andb_prop in Hr as [H1 H2]. apply Nat.leb_le in H1, H2.
  repeat match goal with
         | |- context [(?a <=? ?b)%nat] =>
             destruct (Nat.leb_spec a b); try lia
         end; reflexivity.
Qed.

Lemma default_format_ok_string (v : json) :
  default_format_ok v = true ->
  exists s, v = JString s /\ Str.lower s ∈ VALID_DEFAULT_FORMATS.
Proof.
  unfold default_format_ok, str_in.
  destruct v as [|[]|z| | | |s| |]; simpl; try done.
  - intros H. apply bool_decide_eq_true in H.
    pose proof (pretty_numeral_chars z) as Hn.
    rewrite (lower_numeral _ Hn) in H. apply numeral_charb_spec in Hn.
    exfalso. unfold VALID_DEFAULT_FORMATS in H.
    apply elem_of_list_to_set in H.
    repeat (apply elem_of_cons in H as [H|H];
            [rewrite H in Hn; discriminate Hn|]).
    by apply elem_of_nil in H.
  - intros H. apply bool_decide_eq_true in H. eauto.
Qed.

Ltac height_case h :=
  exists h; split;
  [ repeat first [apply list_elem_of_here | apply list_elem_of_further]
  | split; reflexivity ].

(** X7: under a configuration that went through the repair pass,
    [_get_format_choice] does not raise on the configuration:
    [default_format] is a string whose lower-case form is one of the nine
    valid names; show_all asks the user, mp3 gives mp3, and a height name
    gives the selector limited to that height.  The stored text itself is
    never passed on as a selector, whatever its case. *)
Theorem format_choice_of_repaired_config (config : gmap string json)
        (print_format_table : result unit) (typed : string) :
  repaired config = true ->
  exists s,
    config !! "default_format" = Some (JString s)
    /\ ((Str.lower s = "show_all"
         /\ _get_format_choice config print_format_table typed
            = (_ ← print_format_table; Ok (Str.strip typed)))
        \/ (Str.lower s = "mp3"
            /\ _get_format_choice config print_format_table typed = Ok "mp3")
        \/ (exists height,
              height ∈ [ "360"; "480"; "720"; "1080"; "1440"; "2160";
                         "4320" ]
              /\ Str.lower s = height +:+ "p"
              /\ _get_format_choice config print_format_table typed
                 = Ok (height_selector height))).
Proof.
  intros Hrep. unfold repaired in Hrep. split_checks Hrep.
  unfold has in Hfield4.
  destruct (config !! "default_format") as [v|] eqn:Hv; [|done].
  apply default_format_ok_string in Hfield4 as (s & -> & Hin).
  exists s. split; [done|].
  unfold _get_format_choice, Config.get. rewrite Hv. simpl.
  unfold VALID_DEFAULT_FORMATS in Hin. apply elem_of_list_to_set in Hin.
  generalize dependent (Str.lower s). intros l Hin.
  apply elem_of_cons in Hin as [->|Hin]; [by left|].
  apply elem_of_cons in Hin as [->|Hin]; [by right; left|].
  right. right.
  apply elem_of_cons in Hin as [->|Hin]; [height_case "360"|].
  apply elem_of_cons in Hin as [->|Hin]; [height_case "480"|].
  apply elem_of_cons in Hin as [->|Hin]; [height_case "720"|].
  apply elem_of_cons in Hin as [->|Hin]; [height_case "1080"|].
  apply elem_of_cons in Hin as [->|Hin]; [height_case "1440"|].
  apply elem_of_cons in Hin as [->|Hin]; [height_case "2160"|].
  apply elem_of_cons in Hin as [->|Hin]; [height_case "4320"|].
  by apply elem_of_nil in Hin.
Qed.

Lemma format_choice_of_repaired_config_witness :
  let config := <["default_format" := JString "1080P"]> DEFAULT_CONFIG in
  repaired config = true
  /\ _get_format_choice config (Ok tt) "22"
     = Ok "bestvideo[height<=1080]+bestaudio/best".
Proof.
  intros config.
  assert (Hrep : repaired config = true) by (vm_compute; reflexivity).
  split; [exact Hrep|].
  destruct (format_choice_of_repaired_config config (Ok tt) "22" Hrep)
    as (s & Hs & Hcases).
  assert (s = "1080P") as ->.
  { unfold config in Hs. rewrite lookup_insert_eq in Hs. by injection Hs. }
  destruct Hcases as [[Hl _]|[[Hl _]|(h & _ & Hl & Hr)]];
    [discriminate Hl|discriminate Hl|].
  rewrite Hr. f_equal. unfold height_selector.
  assert (h = "1080") as ->; [|reflexivity].
  apply (append_inj_r _ _ "p"). rewrite <- Hl. reflexivity.
Defined.

(** ** More on the repair pass and on loading *)

Lemma mp3_quality_ok_spec (v : json) :
  mp3_quality_ok v = true
  <-> (exists q, q ∈ VALID_MP3_QUALITIES /\ v = JString q)
      \/ (exists n, n ∈ [64; 128; 192; 256; 320; 396]%Z /\ v = JInt n).
Proof.
  unfold mp3_quality_ok, str_in. split.
  - destruct v as [|[]|z| | | |s| |]; simpl; try done.
    + intros H. apply bool_decide_eq_true in H. right. exists z.
      split; [|done]. unfold VALID_MP3_QUALITIES in H.
      apply elem_of_list_to_set in H.
      repeat (apply elem_of_cons in H as [H|H];
              [match type of H with
               | _ = ?q =>
                   let n := eval vm_compute in (default 0%Z (Py.int_of_str q))
                   in assert (Hn : z = n)
                     by (apply (inj pretty); rewrite H; vm_compute;
                         reflexivity);
                     rewrite Hn;
                     repeat first [apply list_elem_of_here
                                  |apply list_elem_of_further]
               end|]).
      by apply elem_of_nil in H.
    + intros H. apply bool_decide_eq_true in H. left. eauto.
  - intros [(q & Hq & ->)|(n & Hn & ->)]; simpl.
    + by apply bool_decide_eq_true.
    + apply bool_decide_eq_true.
      repeat (apply elem_of_cons in Hn as [->|Hn];
              [vm_compute; reflexivity|]).
      by apply elem_of_nil in Hn.
Qed.

(** X8: the repair of [mp3_quality].  A missing key gets the text 192; a
    stored value is kept as it is when it is one of the six valid texts or
    one of the integers 64, 128, 192, 256, 320, 396 (an integer stays an
    integer); any other value becomes the text 192 and the change is
    reported. *)
Theorem mp3_quality_repair (d cfg : gmap string json) (ch : bool) :
  _validate_config d = Ok (cfg, ch) ->
  (d !! "mp3_quality" = None -> cfg !! "mp3_quality" = Some (JString "192"))
  /\ (forall v, d !! "mp3_quality" = Some v ->
        ((exists q, q ∈ VALID_MP3_QUALITIES /\ v = JString q)
         \/ (exists n, n ∈ [64; 128; 192; 256; 320; 396]%Z /\ v = JInt n)) ->
        cfg !! "mp3_quality" = Some v)
  /\ (forall v, d !! "mp3_quality" = Some v ->
        ~ ((exists q, q ∈ VALID_MP3_QUALITIES /\ v = JString q)
           \/ (exists n, n ∈ [64; 128; 192; 256; 320; 396]%Z
                         /\ v = JInt n)) ->
        cfg !! "mp3_quality" = Some (JString "192") /\ ch = true).
Proof.
  intros Hv. destruct (validate_config_closed_form d cfg ch Hv) as [Hk Hch].
  specialize (Hk "mp3_quality").
  rewrite (default_lookup_union d "mp3_quality" (JString "192") eq_refl)
    in Hk.
  change (repaired_value "mp3_quality" <$> Some ?x)
    with (Some (if mp3_quality_ok x then x else JString "192")) in Hk.
  split; [|split].
  - intros Hd. by rewrite Hk, Hd.
  - intros v Hd Hok. apply mp3_quality_ok_spec in Hok.
    rewrite Hk, Hd. simpl. by rewrite Hok.
  - intros v Hd Hno. rewrite <- mp3_quality_ok_spec in Hno.
    apply not_true_is_false in Hno. rewrite Hk, Hd. simpl. rewrite Hno.
    split; [done|]. rewrite Hch. unfold accepted, has. rewrite Hd, Hno.
    by rewrite !andb_false_r.
Qed.

Lemma mp3_quality_repair_witness :
  let d : gmap string json := {[ "mp3_quality" := JInt 320 ]} in
  exists cfg ch,
    _validate_config d = Ok (cfg, ch)
    /\ cfg !! "mp3_quality" = Some (JInt 320).
Proof.
  intros d.
  destruct (validate_config_total d) as (cfg & ch & Hv).
  { intros b. unfold d. by rewrite lookup_singleton_ne. }
  exists cfg, ch. split; [done|].
  destruct (mp3_quality_repair d cfg ch Hv) as (_ & Hkeep & _).
  apply Hkeep.
  - unfold d. apply lookup_singleton_eq.
  - right. exists 320%Z. split; [|done].
    repeat first [apply list_elem_of_here | apply list_elem_of_further].
Defined.



Lemma accepted_value_fixed (d : gmap string json) (key : string) (v : json) :
  accepted d = true -> key <> "max_comments" -> d !! key = Some v ->
  repaired_value key v = v.
Proof.
  unfold accepted. intros H Hne Hv. split_checks H.
  unfold has in *. unfold repaired_value.
  repeat match goal with
         | |- context [String.eqb key ?k] =>
             destruct (String.eqb_spec key k) as [->|?]
         end; try done; rewrite Hv in *;
    try match goal with H : ?b = true |- context [?b] => by rewrite H end.
Qed.

(** X10: when the repair pass reports no change, the document it returns
    is the input with [max_comments] replaced by its integer conversion; it
    is the input itself exactly when [max_comments] is already stored as
    that integer.  So [load_config] can return a document that differs from
    the file it leaves in place, and then only under that key. *)
Theorem validate_config_silent_change (d cfg : gmap string json) :
  _validate_config d = Ok (cfg, false) ->
  exists v n,
    d !! "max_comments" = Some v
    /\ convert_max_comments v = Ok n
    /\ cfg = <["max_comments" := JInt n]> d
    /\ (cfg = d <-> v = JInt n).
Proof.
  intros Hv. destruct (validate_config_closed_form d cfg false Hv)
    as [Hk Hch].
  assert (Hacc : accepted d = true) by (by destruct (accepted d)).
  pose proof Hacc as Hacc'. unfold accepted in Hacc'. split_checks Hacc'.
  rewrite (all_present_union d Hacc') in Hk.
  unfold has in Hfield.
  destruct (d !! "max_comments") as [v|] eqn:Hmc; [|done].
  unfold max_comments_converts in Hfield.
  destruct (convert_max_comments v) as [n|] eqn:Hconv; [|done].
  exists v, n. split; [done|]. split; [done|].
  assert (Hcfg : cfg = <["max_comments" := JInt n]> d).
  { apply map_eq. intros key. rewrite Hk.
    destruct (decide (key = "max_comments")) as [->|Hne].
    - rewrite lookup_insert_eq, Hmc. simpl.
      change (repaired_value "max_comments" v)
        with (match convert_max_comments v with
              | Ok n => JInt n
              | Raise _ => JInt 200
              end).
      by rewrite Hconv.
    - rewrite lookup_insert_ne by done.
      destruct (d !! key) as [x|] eqn:Hx; [|done]. simpl.
      by rewrite (accepted_value_fixed d key x). }
  split; [done|]. rewrite Hcfg. split.
  - intros Heq.
    assert (Hl : (<["max_comments" := JInt n]> d) !! "max_comments"
                 = d !! "max_comments") by (by rewrite Heq).
    rewrite lookup_insert_eq, Hmc in Hl. by injection Hl.
  - intros ->. by apply insert_id.
Qed.

Lemma validate_config_silent_change_witness :
  let d := <["max_comments" := JString "50"]> DEFAULT_CONFIG in
  exists v n,
    d !! "max_comments" = Some v
    /\ convert_max_comments v = Ok n
    /\ <["max_comments" := JInt 50]> DEFAULT_CONFIG
       = <["max_comments" := JInt n]> d.
Proof.
  intros d.
  destruct (validate_config_silent_change d
              (<["max_comments" := JInt 50]> DEFAULT_CONFIG))
    as (v & n & H1 & H2 & H3 & _); [reflexivity|].
  exists v, n. split; [exact H1|]. split; [exact H2|exact H3].
Defined.

(** ** The process state *)

Import Vault Process.

Lemma default_items_map (a : gmap string json) :
  list_to_map (default_items a)
  = <["authentication" := JObject a]> DEFAULT_CONFIG.
Proof. reflexivity. Qed.

Lemma default_items_initial :
  default_items DEFAULT_AUTHENTICATION = DEFAULT_CONFIG_items.
Proof. reflexivity. Qed.



Lemma repair_field_insert_auth (key : string) (ok : json -> bool)
      (fallback reset v : json) (s : state) :
  key <> "authentication" ->
  repair_field key ok fallback reset (lift_auth v s)
  = lift_auth v (repair_field key ok fallback reset s).
Proof.
  intros Hne. destruct s as [c ch]. unfold repair_field, lift_auth. simpl.
  unfold get. rewrite lookup_insert_ne by done.
  destruct (negb _); simpl; [|done]. f_equal. by apply insert_insert_ne.
Qed.

Lemma check_max_comments_insert_auth (v : json) (s : state) :
  check_max_comments (lift_auth v s)
  = match check_max_comments s with
    | Ok s' => Ok (lift_auth v s')
    | Raise e => Raise e
    end.
Proof.
  destruct s as [c ch]. unfold check_max_comments, lift_auth. simpl.
  unfold get. rewrite lookup_insert_ne by done.
  destruct (convert_max_comments _) as [n|[]]; simpl; try done;
    f_equal; f_equal; by apply insert_insert_ne.
Qed.

Lemma checks_insert_auth (v : json) (s : state) :
  checks (lift_auth v s)
  = match checks s with
    | Ok s' => Ok (lift_auth v s')
    | Raise e => Raise e
    end.
Proof.
  unfold checks.
  rewrite check_mp3_quality_shape, repair_field_insert_auth by done.
  rewrite check_default_format_shape, repair_field_insert_auth by done.
  unfold check_organize_downloads, check_download_metadata,
    check_download_comments, check_download_subtitles.
  rewrite !check_bool_shape.
  rewrite !repair_field_insert_auth by done.
  apply check_max_comments_insert_auth.
Qed.

Lemma validate_config_checks (d : gmap string json) :
  Config._validate_config d = checks (add_missing (d, false)).
Proof. reflexivity. Qed.

(** The pass under a changed [DEFAULT_CONFIG], in terms of the pass under
    the initial one. *)
Lemma process_validate_config (a d : gmap string json) :
  Process._validate_config a d
  = match Config._validate_config d with
    | Ok (cfg, ch) =>
        let shared := bool_decide (d !! "authentication" = None) in
        Ok ({| entries := if shared
                          then <["authentication" := JObject a]> cfg
                          else cfg;
               auth_shared := shared |}, ch)
    | Raise e => Raise e
    end.
Proof.
  rewrite validate_config_checks. unfold Process._validate_config.
  fold (checks (fold_left add_missing_step (default_items a) (d, false))).
  rewrite add_missing_eq, add_missing_fold, default_items_map.
  change (forallb _ (default_items a)) with (all_present d).
  case_bool_decide as Hd.
  - assert (Hu : d ∪ <["authentication" := JObject a]> DEFAULT_CONFIG
                 = <["authentication" := JObject a]> (d ∪ DEFAULT_CONFIG)).
    { apply map_eq. intros key.
      destruct (decide (key = "authentication")) as [->|Hne].
      - rewrite lookup_insert_eq, lookup_union_r by done.
        by rewrite lookup_insert_eq.
      - rewrite lookup_insert_ne by done.
        destruct (d !! key) as [x|] eqn:Hx.
        + by rewrite !(lookup_union_Some_l _ _ _ x).
        + rewrite !lookup_union_r by done. by rewrite lookup_insert_ne. }
    rewrite Hu.
    change (<["authentication" := JObject a]> (d ∪ DEFAULT_CONFIG),
            false || negb (all_present d))
      with (lift_auth (JObject a)
              (d ∪ DEFAULT_CONFIG, false || negb (all_present d))).
    rewrite checks_insert_auth.
    by destruct (checks _) as [[cfg ch]|e].
  - assert (Hu : d ∪ <["authentication" := JObject a]> DEFAULT_CONFIG
                 = d ∪ DEFAULT_CONFIG).
    { apply map_eq. intros key.
      destruct (decide (key = "authentication")) as [->|Hne].
      - destruct (d !! "authentication") as [x|] eqn:Hx; [|done].
        by rewrite !(lookup_union_Some_l _ _ _ x).
      - destruct (d !! key) as [x|] eqn:Hx.
        + by rewrite !(lookup_union_Some_l _ _ _ x).
        + rewrite !lookup_union_r by done. by rewrite lookup_insert_ne. }
    rewrite Hu. by destruct (checks _) as [[cfg ch]|e].
Qed.

Lemma repaired_insert_auth (c : gmap string json) (v : json) :
  repaired c = true -> repaired (<["authentication" := v]> c) = true.
Proof.
  unfold repaired, has. intros H.
  rewrite !lookup_insert_ne by done.
  assert (Hall : all_present (<["authentication" := v]> c) = true).
  { apply andb_prop in H as [H _]. do 6 apply andb_prop in H as [H _].
    unfold all_present in *. rewrite forallb_forall in *.
    intros item Hin. specialize (H item Hin).
    apply bool_decide_eq_true in H. apply bool_decide_eq_true.
    destruct (decide (item.1 = "authentication")) as [->|Hne].
    - rewrite lookup_insert_eq. eauto.
    - by rewrite lookup_insert_ne. }
  rewrite Hall.
  apply andb_prop in H as [H H7]. do 6 apply andb_prop in H as [H ?].
  repeat (apply andb_true_intro; split); done.
Qed.

(** What a successful load returns. *)
Lemma process_load_config_ok (a : gmap string json) (fs fs' : filesystem)
      (config : config_dict) :
  Process.load_config a fs = Ok (config, fs') ->
  repaired (entries config) = true
  /\ writable fs' = writable fs
  /\ (auth_shared config = true ->
      entries config !! "authentication" = Some (JObject a))
  /\ (auth_shared config = false ->
      exists d x, config_file fs = Some (Parsed (JObject d))
                  /\ d !! "authentication" = Some x
                  /\ entries config !! "authentication" = Some x)
  /\ (auth_shared config = true <->
      config_file fs = None \/ config_file fs = Some Unparseable
      \/ exists d, config_file fs = Some (Parsed (JObject d))
                   /\ d !! "authentication" = None).
Proof.
  unfold Process.load_config. rewrite default_items_map.
  assert (Hdef : repaired (<["authentication" := JObject a]> DEFAULT_CONFIG)
                 = true) by (apply repaired_insert_auth, repaired_default).
  destruct (config_file fs) as [[|j]|] eqn:Hf.
  - intros [= <- <-]. simpl. split; [done|]. split; [done|].
    split; [by rewrite lookup_insert_eq|]. split; [done|]. split; eauto.
  - clear Hdef.
    destruct j as [| | | | | | | |d]; try (intros H; discriminate H).
    rewrite process_validate_config.
    destruct (Config._validate_config d) as [[cfg ch]|e] eqn:Hv;
      [|intros H; discriminate H].
    simpl. intros [= <- <-]. simpl.
    pose proof (validate_config_repaired d cfg ch Hv) as Hrep.
    destruct (validate_config_closed_form d cfg ch Hv) as [Hk _].
    split; [|split; [|split; [|split]]].
    + case_bool_decide; [by apply repaired_insert_auth|done].
    + destruct ch; [|done]. unfold _save_config.
      by destruct (writable fs) eqn:Hw.
    + case_bool_decide; [|done]. intros _. by rewrite lookup_insert_eq.
    + case_bool_decide as Hd; [done|]. intros _.
      destruct (d !! "authentication") as [x|] eqn:Hx; [|done].
      exists d, x. split; [done|]. split; [done|].
      rewrite Hk, (lookup_union_Some_l _ _ _ x) by done. done.
    + case_bool_decide as Hd.
      * split; [|done]. intros _. right. right. eauto.
      * split; [done|]. intros [?|[?|(d' & [= <-] & Hd')]]; done.
  - destruct (writable fs) eqn:Hw; intros [= <- <-]; simpl;
      (split; [done|]; split; [done|];
       split; [by rewrite lookup_insert_eq|]; split; [done|]; split; eauto).
Qed.

(** Loading a file that holds a repaired document with an
    ["authentication"] entry. *)
Lemma process_load_config_repaired (a : gmap string json) (fs : filesystem)
      (K : gmap string json) (x : json) :
  config_file fs = Some (Parsed (JObject K)) ->
  repaired K = true ->
  K !! "authentication" = Some x ->
  Process.load_config a fs
  = Ok ({| entries := K; auth_shared := false |}, fs).
Proof.
  intros Hf Hrep Hx. unfold Process.load_config. rewrite Hf.
  rewrite process_validate_config, (validate_config_fixpoint K Hrep).
  simpl. rewrite bool_decide_eq_false_2 by (by rewrite Hx). done.
Qed.

Lemma with_config_fs_same (w : world) : with_config_fs (config_fs w) w = w.
Proof. by destruct w. Qed.

Lemma with_key_store_same (w : world) : with_key_store (key_store w) w = w.
Proof. by destruct w. Qed.

(** After [config["authentication"][key] = value] the configuration holds
    a repaired document whose ["authentication"] entry has [value] under
    [key]. *)
Lemma set_authentication_content (key : string) (value : json)
      (config config' : config_dict) (w w' : world) :
  repaired (entries config) = true ->
  set_authentication key value config w = (w', Returns config') ->
  exists A,
    content (default_auth w') config'
    = <["authentication" := JObject A]> (entries config)
    /\ A !! key = Some value
    /\ (forall k, k <> key ->
          A !! k = match content (default_auth w) config !! "authentication"
                   with
                   | Some (JObject a) => a !! k
                   | _ => None
                   end)
    /\ config_fs w' = config_fs w
    /\ credentials_file w' = credentials_file w
    /\ credentials_writable w' = credentials_writable w
    /\ key_store w' = key_store w
    /\ default_auth w'
       = (if auth_shared config then <[key := value]> (default_auth w)
          else default_auth w).
Proof.
  intros Hrep. unfold set_authentication, content.
  destruct (auth_shared config) eqn:Hs.
  - intros [= <- <-]. rewrite Hs. simpl.
    exists (<[key := value]> (default_auth w)).
    split; [done|]. split; [by rewrite lookup_insert_eq|].
    split; [|done]. intros k Hk. rewrite lookup_insert_eq.
    by rewrite lookup_insert_ne.
  - destruct (entries config !! "authentication") as [x|] eqn:Hx; [|done].
    destruct x as [| | | | | | | |a0]; try done.
    intros [= <- <-]. simpl. exists (<[key := value]> a0).
    split; [done|]. split; [by rewrite lookup_insert_eq|].
    split; [|done]. intros k Hk. by rewrite lookup_insert_ne.
Qed.

Section ProcessFacts.

Context {L : Library}.

(** The steps of a call of [setup_instagram_login] that returns [True]. *)
Lemma setup_instagram_login_success (r_key r_enc : entropy)
      (typed confirm password : string) (w w' : world) :
  setup_instagram_login r_key r_enc typed confirm password w
  = (w', Returns true) ->
  exists config fs config1 w1 encrypted st c,
    password <> EmptyString
    /\ Process.load_config (default_auth w) (config_fs w) = Ok (config, fs)
    /\ set_authentication "instagram_username"
         (JString (entered_username typed)) config (with_config_fs fs w)
       = (w1, Returns config1)
    /\ _encrypt_credential r_key r_enc password (key_store w1)
       = Ok (encrypted, st)
    /\ w' = save config1
              (with_credentials
                 (Some (Parsed (JObject
                    (<["instagram_password" := JString encrypted]> c))))
                 (with_key_store st w1)).
Proof.
  unfold setup_instagram_login. fold (entered_username typed).
  destruct (Str.is_empty (Str.strip typed)); [done|].
  destruct (_ && _); [done|].
  destruct (Str.is_empty password) eqn:Hp; [done|].
  destruct (Process.load_config _ _) as [[config fs]|e] eqn:Hload; [|done].
  destruct (set_authentication _ _ _ _) as [w1 [config1|e|]] eqn:Hset;
    [|done|done].
  destruct (_encrypt_credential _ _ _ _) as [[encrypted st]|e] eqn:Henc;
    [|done].
  simpl.
  destruct (match credentials_file w1 with
            | Some (Parsed j) => j
            | _ => JObject ∅
            end) as [| | | | | | | |c]; try done.
  destruct (credentials_writable w1); [|done]. intros [= <-].
  exists config, fs, config1, w1, encrypted, st, c.
  split; [by intros ->|]. done.
Qed.

Lemma get_encryption_key_file (r : entropy) (st st' : store) (key : bytes) :
  _get_encryption_key r st = Ok (key, st') -> key_file st' = Some key.
Proof.
  unfold _get_encryption_key. destruct (key_file st) as [k|] eqn:Hk.
  - by intros [= <- <-].
  - destruct (key_writable st); [|done]. by intros [= <- <-].
Qed.

(** X11: [DEFAULT_CONFIG.copy()] is a shallow copy.  When the
    configuration loaded by [setup_instagram_login] took its
    [authentication] entry from the defaults (file missing, unparseable, or
    without that key), a call that returns [True] has written the user name
    into the [authentication] object of [DEFAULT_CONFIG] itself: every
    later [load_config] that finds no file returns defaults holding that
    user name, and writes them when it can.  When the file has the key,
    the defaults are left as they were. *)
Theorem setup_instagram_login_changes_defaults (r_key r_enc : entropy)
        (typed confirm password : string) (w w' : world) :
  setup_instagram_login r_key r_enc typed confirm password w
  = (w', Returns true) ->
  let username := JString (entered_username typed) in
  let from_defaults :=
    config_file (config_fs w) = None
    \/ config_file (config_fs w) = Some Unparseable
    \/ exists d, config_file (config_fs w) = Some (Parsed (JObject d))
                 /\ d !! "authentication" = None in
  (from_defaults ->
   default_auth w' = <["instagram_username" := username]> (default_auth w)
   /\ forall fs,
        config_file fs = None ->
        exists config fs',
          Process.load_config (default_auth w') fs = Ok (config, fs')
          /\ authentication_get (content (default_auth w') config)
               "instagram_username" (JString EmptyString)
             = Some username
          /\ (writable fs = true ->
              config_file fs'
              = Some (Parsed (JObject (content (default_auth w') config)))))
  /\ (~ from_defaults -> default_auth w' = default_auth w).
Proof.
  intros Hsetup username from_defaults.
  destruct (setup_instagram_login_success _ _ _ _ _ _ _ Hsetup)
    as (config & fs & config1 & w1 & encrypted & st & c
        & Hpass & Hload & Hset & Henc & ->).
  destruct (process_load_config_ok _ _ _ _ Hload)
    as (Hrep & _ & _ & _ & Hshared).
  destruct (set_authentication_content _ _ _ _ _ _ Hrep Hset)
    as (A & _ & _ & _ & _ & _ & _ & _ & Hda1).
  change (default_auth (save config1 _)) with (default_auth w1).
  change (default_auth (with_config_fs fs w)) with (default_auth w) in Hda1.
  fold username in Hda1. split.
  - intros Hfrom. apply Hshared in Hfrom. rewrite Hfrom in Hda1.
    split; [done|]. intros fs0 Hnone. unfold Process.load_config.
    rewrite Hnone.
    exists {| entries := list_to_map (default_items (default_auth w1));
              auth_shared := true |}.
    exists (if writable fs0
            then write_config
                   (list_to_map (default_items (default_auth w1))) fs0
            else fs0).
    split; [by destruct (writable fs0)|]. split.
    + unfold authentication_get, content, Config.get. simpl.
      rewrite lookup_insert_eq. simpl. rewrite Hda1.
      by rewrite lookup_insert_eq.
    + intros Hw0. rewrite Hw0. unfold content, write_config.
      cbn [auth_shared entries config_file].
      rewrite default_items_map. by rewrite insert_insert_eq.
  - intros Hnot. destruct (auth_shared config) eqn:Hs; [|done].
    destruct Hnot. by apply Hshared.
Qed.

Context {Laws : LibraryLaws L}.

Lemma encrypt_then_decrypt (r1 r2 r3 : entropy) (password encrypted : string)
      (st0 st : store) :
  _encrypt_credential r1 r2 password st0 = Ok (encrypted, st) ->
  _decrypt_credential r3 encrypted st = (password, st).
Proof.
  unfold _encrypt_credential.
  destruct (_get_encryption_key r1 st0) as [[key st']|e] eqn:Hkey; [|done].
  simpl. destruct (valid_key key) eqn:Hvalid; [|done]. simpl.
  destruct (decode _) as [text|] eqn:Htext; [|done]. intros [= <- <-].
  unfold _decrypt_credential.
  rewrite (get_encryption_key_stored r3 st' key
             (get_encryption_key_file _ _ _ _ Hkey)).
  by rewrite (decrypt_with_encrypted key r2 password text Hvalid Htext).
Qed.

(** X12: after [setup_instagram_login] has returned [True], with a
    configuration file that can be written, [get_instagram_credentials]
    returns the user name as stored (stripped, one leading at-sign
    removed) and the password typed, without changing any file, and
    [is_instagram_authenticated] holds.  The exception is a name that is
    empty once the at-sign is removed: nothing is returned then, and
    [is_instagram_authenticated] is false although the setup reported
    success. *)
Theorem instagram_login_roundtrip (r_key r_enc r : entropy)
        (typed confirm password : string) (w w' : world) :
  setup_instagram_login r_key r_enc typed confirm password w
  = (w', Returns true) ->
  writable (config_fs w) = true ->
  let username := entered_username typed in
  get_instagram_credentials r w'
  = (w', Returns (if Str.is_empty username
                  then (JString EmptyString, EmptyString)
                  else (JString username, password)))
  /\ is_instagram_authenticated r w'
     = (w', Returns (negb (Str.is_empty username))).
Proof.
  intros Hsetup Hw username.
  destruct (setup_instagram_login_success _ _ _ _ _ _ _ Hsetup)
    as (config & fs & config1 & w1 & encrypted & st & c
        & Hpass & Hload & Hset & Henc & ->).
  destruct (process_load_config_ok _ _ _ _ Hload)
    as (Hrep & Hwfs & _ & _ & _).
  destruct (set_authentication_content _ _ _ _ _ _ Hrep Hset)
    as (A & Hcontent & HA & _ & Hfs1 & Hcred1 & Hcw1 & Hks1 & Hda1).
  set (K := <["authentication" := JObject A]> (entries config)) in *.
  set (w2 := with_credentials
               (Some (Parsed (JObject
                  (<["instagram_password" := JString encrypted]> c))))
               (with_key_store st w1)).
  assert (Hfile : config_fs (save config1 w2)
                  = {| config_file := Some (Parsed (JObject K));
                       writable := true |}).
  { unfold save. simpl. rewrite Hcontent, Hfs1. simpl.
    unfold _save_config. rewrite Hwfs, Hw. unfold write_config.
    by rewrite Hwfs, Hw. }
  assert (HK : repaired K = true) by (by apply repaired_insert_auth).
  assert (Hload2 : Process.load_config (default_auth (save config1 w2))
                     (config_fs (save config1 w2))
                   = Ok ({| entries := K; auth_shared := false |},
                         config_fs (save config1 w2))).
  { apply (process_load_config_repaired _ _ K (JObject A)).
    - by rewrite Hfile.
    - done.
    - apply lookup_insert_eq. }
  assert (Hget : get_instagram_credentials r (save config1 w2)
                 = (save config1 w2,
                    Returns (if Str.is_empty username
                             then (JString EmptyString, EmptyString)
                             else (JString username, password)))).
  { unfold get_instagram_credentials. rewrite Hload2.
    rewrite with_config_fs_same.
    unfold authentication_get, content, Config.get. simpl.
    unfold K at 1. rewrite lookup_insert_eq. simpl. rewrite HA. simpl.
    fold username. destruct (Str.is_empty username); simpl; [done|].
    rewrite lookup_insert_eq. simpl.
    rewrite (encrypt_then_decrypt r_key r_enc r password encrypted
               (key_store w1) st Henc).
    reflexivity. }
  split; [exact Hget|].
  unfold is_instagram_authenticated. rewrite Hget.
  destruct (Str.is_empty username) eqn:Hu; simpl; [done|].
  rewrite Hu. simpl. destruct password; [done|done].
Qed.

End ProcessFacts.





Lemma instagram_login_roundtrip_witness :
  exists w',
    @setup_instagram_login Toy.library tt tt " @ann " EmptyString "pw"
      (fresh_world true) = (w', Returns true)
    /\ @get_instagram_credentials Toy.library tt w'
       = (w', Returns (JString "ann", "pw"))
    /\ @is_instagram_authenticated Toy.library tt w' = (w', Returns true).
Proof.
  eexists. split; [reflexivity|].
  apply (@instagram_login_roundtrip Toy.library toy_laws tt tt tt
           " @ann " EmptyString "pw" (fresh_world true)); reflexivity.
Defined.

Lemma setup_instagram_login_changes_defaults_witness :
  exists w',
    @setup_instagram_login Toy.library tt tt "ann" EmptyString "pw"
      (fresh_world false) = (w', Returns true)
    /\ default_auth w'
       = <["instagram_username" := JString "ann"]> DEFAULT_AUTHENTICATION
    /\ config_fs w' = config_fs (fresh_world false).
Proof.
  eexists. split; [reflexivity|]. split; [|reflexivity].
  destruct (@setup_instagram_login_changes_defaults Toy.library tt tt
              "ann" EmptyString "pw" (fresh_world false) _ eq_refl)
    as [H _].
  destruct H as [H _]; [by left|]. exact H.
Defined.



(** ** Collected links *)

Import Browser.


Lemma scan_ok (max_count : Z) (seen : list string)
      (elements : list (reply (option string))) (post_links : list string) :
  links_ok seen post_links ->
  (Z.of_nat (length post_links) < max_count)%Z ->
  (forall h, Answer (Some h) ∈ elements -> h ∈ seen) ->
  let '(links, raised) := scan max_count elements post_links in
  links_ok seen links
  /\ (Z.of_nat (length links) <= max_count)%Z.
Proof.
  revert post_links.
  induction elements as [|e rest IH]; intros post_links Hok Hlen Hseen;
    simpl.
  - split; [done|lia].
  - destruct e as [href|]; [|split; [done|lia]].
    assert (Hrest : forall h, Answer (Some h) ∈ rest -> h ∈ seen).
    { intros h Hh. apply Hseen. by right. }
    destruct href as [h|]; [|by apply IH].
    destruct (wanted h post_links) eqn:Hw; [|by apply IH].
    unfold wanted in Hw.
    apply andb_prop in Hw as [Hw Hnew]. apply andb_prop in Hw as [Hne Hp].
    apply negb_true_iff in Hne, Hnew. apply bool_decide_eq_false in Hnew.
    assert (Hok' : links_ok seen (post_links ++ [h])).
    { destruct Hok as (Hnd & Hall & Hsub). split; [|split].
      - apply NoDup_app. split; [done|]. split; [|apply NoDup_singleton].
        intros x Hx Hx'. apply list_elem_of_singleton in Hx'. by subst.
      - apply Forall_app. split; [done|]. constructor; [|constructor].
        split; [by intros ->|by apply contains_spec].
      - intros x Hx. apply elem_of_app in Hx as [Hx|Hx]; [by apply Hsub|].
        apply list_elem_of_singleton in Hx as ->. apply Hseen. left. }
    destruct (Z.leb_spec max_count
                (Z.of_nat (length (post_links ++ [h])))) as [Hfull|Hmore].
    + split; [done|]. rewrite length_app in *. simpl in *. lia.
    + by apply IH.
Qed.

Lemma scroll_loop_ok (max_count : Z) (seen : list string)
      (rs : list round) (last_height : Z) (post_links : list string) :
  links_ok seen post_links ->
  (Z.of_nat (length post_links) <= Z.max 0 max_count)%Z ->
  (forall r elements h,
      r ∈ rs -> posts r = Answer elements -> Answer (Some h) ∈ elements ->
      h ∈ seen) ->
  links_ok seen (scroll_loop max_count rs last_height post_links)
  /\ (Z.of_nat (length (scroll_loop max_count rs last_height post_links))
      <= Z.max 0 max_count)%Z.
Proof.
  revert last_height post_links.
  induction rs as [|r rs IH]; intros last_height post_links Hok Hlen Hseen;
    simpl; [done|].
  destruct (Z.ltb_spec (Z.of_nat (length post_links)) max_count)
    as [Hlt|Hge]; [|done].
  destruct (posts r) as [elements|] eqn:Hposts; [|done].
  pose proof (scan_ok max_count seen elements post_links Hok Hlt) as Hscan.
  destruct (scan max_count elements post_links) as [links raised].
  destruct Hscan as [Hok' Hlen'].
  { intros h Hh. eapply Hseen; [left|exact Hposts|exact Hh]. }
  assert (Hbound : (Z.of_nat (length links) <= Z.max 0 max_count)%Z) by lia.
  destruct raised; [done|].
  destruct (Z.leb_spec max_count (Z.of_nat (length links))); [done|].
  destruct (scroll r); [|done]. destruct (new_height r) as [h|]; [|done].
  destruct (h =? last_height)%Z; [done|].
  apply IH; [done|done|]. intros r' elements' h' Hr'. apply Hseen. by right.
Qed.

Lemma slice_to_all {A : Type} (n : Z) (l : list A) :
  (Z.of_nat (length l) <= Z.max 0 n)%Z -> slice_to n l = l.
Proof.
  intros H. unfold slice_to. destruct (Z.leb_spec 0 n).
  - apply take_ge. lia.
  - destruct l; [done|]. simpl in H. lia.
Qed.

(** X14: whatever the driver answers and wherever it fails, the links
    returned by [_extract_instagram_post_links] hold no duplicate, number
    at most [max_count] (none when [max_count] is not positive), and are
    non-empty texts containing /p/ that the page reported; the final slice
    removes nothing. *)
Theorem instagram_post_links_invariants (d : driver) (max_count : Z) :
  let links := _extract_instagram_post_links d max_count in
  NoDup links
  /\ (Z.of_nat (length links) <= Z.max 0 max_count)%Z
  /\ Forall (fun h => h <> EmptyString /\ occurs_in "/p/" h) links
  /\ links ⊆ offered d
  /\ links = match first_height d with
             | Answer last_height =>
                 scroll_loop max_count (rounds d) last_height []
             | Fails => []
             end.
Proof.
  intros links. subst links. unfold _extract_instagram_post_links.
  set (post_links := match first_height d with
                     | Answer last_height =>
                         scroll_loop max_count (rounds d) last_height []
                     | Fails => []
                     end).
  assert (H : links_ok (offered d) post_links
              /\ (Z.of_nat (length post_links) <= Z.max 0 max_count)%Z).
  { unfold post_links. destruct (first_height d) as [h0|].
    - apply scroll_loop_ok.
      + split; [constructor|]. split; [constructor|]. intros x Hx.
        by apply elem_of_nil in Hx.
      + simpl. lia.
      + intros r elements h Hr Hposts Hh. unfold offered.
        apply list_elem_of_bind. exists r. split; [|done]. rewrite Hposts.
        apply list_elem_of_bind. exists (Answer (Some h)). split; [|done].
        left.
    - split; [|simpl; lia]. split; [constructor|]. split; [constructor|].
      intros x Hx. by apply elem_of_nil in Hx. }
  destruct H as [(Hnd & Hall & Hsub) Hlen].
  rewrite (slice_to_all max_count post_links Hlen). done.
Qed.


(** ** Stripped text *)

Import Metadata.







(** ** Files next to the info file *)

Lemma take_append (a b : string) : Str.take (String.length a) (a +:+ b) = a.
Proof.
  induction a as [|c a IH]; [by destruct b|].
  rewrite append_cons. simpl. by rewrite IH.
Qed.

Lemma endswith_spec (suffix s : string) :
  endswith suffix s = true <-> exists stem, s = stem +:+ suffix.
Proof.
  unfold endswith. split.
  - intros H. apply andb_prop in H as [Heq Hlen].
    apply String.eqb_eq in Heq.
    set (n := (String.length s - String.length suffix)%nat) in *.
    exists (Str.take n s).
    transitivity (Str.take n s +:+ Str.drop n s);
      [symmetry; apply take_drop|by rewrite Heq].
  - intros [stem ->]. rewrite length_append.
    replace (String.length stem + String.length suffix
             - String.length suffix)%nat
      with (String.length stem) by lia.
    rewrite drop_append, String.eqb_refl. simpl. apply Nat.leb_le. lia.
Qed.

Lemma slice_end_append (a b : string) :
  slice_end (String.length b) (a +:+ b) = a.
Proof.
  unfold slice_end. rewrite length_append.
  replace (String.length a + String.length b - String.length b)%nat
    with (String.length a) by lia.
  apply take_append.
Qed.

Lemma rfind_from_append (c : ascii) (a b : string) (i last : Z) :
  Str.rfind_from c (a +:+ b) i last
  = Str.rfind_from c b (i + Z.of_nat (String.length a))
                   (Str.rfind_from c a i last).
Proof.
  revert i last. induction a as [|d a IH]; intros i last.
  - rewrite append_nil_l. simpl. by rewrite Z.add_0_r.
  - rewrite append_cons. simpl Str.rfind_from. rewrite IH. f_equal.
    simpl String.length. lia.
Qed.

Lemma rfind_from_absent (c : ascii) (s : string) (i last : Z) :
  Forall (fun d => d <> c) (list_ascii_of_string s) ->
  Str.rfind_from c s i last = last.
Proof.
  revert i last. induction s as [|d s IH]; intros i last H; [done|].
  inversion H as [|? ? Hd Hs]; subst. simpl.
  destruct (Ascii.eqb_spec d c); [done|]. by apply IH.
Qed.

Lemma basename_join (a name : string) :
  Forall (fun d => d <> "/"%char) (list_ascii_of_string name) ->
  basename ((a +:+ "/") +:+ name) = name
  /\ basename name = name.
Proof.
  intros Hname. unfold basename, Str.rfind. split.
  - rewrite rfind_from_append, (rfind_from_absent _ name) by done.
    rewrite rfind_from_append. simpl Str.rfind_from.
    replace (Z.to_nat (0 + Z.of_nat (String.length a) + 1))
      with (String.length (a +:+ "/"))
      by (rewrite length_append; simpl; lia).
    apply drop_append.
  - by rewrite rfind_from_absent.
Qed.

Lemma endswith_char_spec (c : ascii) (s : string) :
  Str.endswith_char c s = true -> exists a, s = a +:+ String c EmptyString.
Proof.
  induction s as [|d s IH]; [done|]. simpl.
  destruct s as [|e s].
  - intros H. apply Ascii.eqb_eq in H as ->. by exists EmptyString.
  - intros H. destruct (IH H) as [a Ha]. exists (String d a).
    by rewrite append_cons, <- Ha.
Qed.

Lemma basename_with_sep (dir name : string) :
  Forall (fun d => d <> "/"%char) (list_ascii_of_string name) ->
  basename (with_sep dir +:+ name) = name.
Proof.
  intros Hname. unfold with_sep.
  destruct (Str.is_empty dir) eqn:He.
  - apply is_empty_spec in He as ->. simpl. rewrite append_nil_l.
    by apply basename_join.
  - simpl. destruct (Str.endswith_char "/" dir) eqn:Hend.
    + apply endswith_char_spec in Hend as [a ->]. by apply basename_join.
    + by apply basename_join.
Qed.

Lemma no_slash_chars (name : string) :
  ~ occurs_in "/" name ->
  Forall (fun d => d <> "/"%char) (list_ascii_of_string name).
Proof.
  intros H. apply not_contains_spec in H.
  induction name as [|d name IH]; [constructor|].
  rewrite contains_cons in H. apply orb_false_iff in H as [Hp Hc].
  constructor; [|by apply IH]. intros ->.
  assert (String.prefix "/" (String "/" name) = true)
    by (apply prefix_spec; by exists name).
  congruence.
Qed.

Lemma forall_append_l (P : ascii -> Prop) (a b : string) :
  Forall P (list_ascii_of_string (a +:+ b)) ->
  Forall P (list_ascii_of_string a).
Proof.
  rewrite list_ascii_of_string_app, Forall_app. by intros [? _].
Qed.

Lemma no_slash_relative (b : string) :
  Forall (fun d => d <> "/"%char) (list_ascii_of_string b) ->
  Str.startswith "/" b = false.
Proof.
  intros H. unfold Str.startswith. destruct b as [|c b]; [done|].
  destruct (String.prefix "/" (String c b)) eqn:Hp; [|done].
  apply prefix_char in Hp as ->. by inversion H.
Qed.

(** X17: the description and comments files of
    [_process_downloaded_metadata] lie in the organised directory and share
    the stem of the first listed file that ends in .info.json: the slice
    of ten characters removes exactly that suffix. *)
Theorem metadata_files_share_stem (organized_path : string)
        (listing : list string) (path_exists : string -> bool)
        (download_comments : bool) (files : metadata_files) :
  Forall (fun name => ~ occurs_in "/" name) listing ->
  _process_downloaded_metadata_files organized_path listing path_exists
                                     download_comments
  = Some files ->
  exists stem,
    List.find (endswith ".info.json") listing = Some (stem +:+ ".info.json")
    /\ info_json_path files
       = with_sep organized_path +:+ stem +:+ ".info.json"
    /\ description_path files
       = with_sep organized_path +:+ stem +:+ ".description.txt"
    /\ csv_path files
       = (if download_comments
          then Some (with_sep organized_path +:+ stem +:+ ".comments.csv")
          else None)
    /\ path_exists (info_json_path files) = true.
Proof.
  intros Hnames. unfold _process_downloaded_metadata_files.
  destruct (List.find _ listing) as [filename|] eqn:Hfind; [|done].
  apply List.find_some in Hfind as Hin. destruct Hin as [Hin Hsuffix].
  apply endswith_spec in Hsuffix as [stem ->].
  rewrite Forall_forall in Hnames.
  apply list_elem_of_In in Hin. specialize (Hnames _ Hin).
  apply no_slash_chars in Hnames.
  pose proof (forall_append_l _ _ _ Hnames) as Hstem.
  assert (Hrel : forall ext,
            Forall (fun d => d <> "/"%char) (list_ascii_of_string ext) ->
            os_path_join organized_path [stem +:+ ext]
            = with_sep organized_path +:+ stem +:+ ext).
  { intros ext Hext. unfold os_path_join. simpl.
    rewrite join_step_relative; [done|]. apply no_slash_relative.
    rewrite list_ascii_of_string_app. by apply Forall_app. }
  assert (Hslash : forall ext (H : forallb (fun d => negb (Ascii.eqb d "/"))
                                     (list_ascii_of_string ext) = true),
            Forall (fun d => d <> "/"%char) (list_ascii_of_string ext)).
  { intros ext H. rewrite forallb_forall in H. apply Forall_forall.
    intros d Hd Heq. apply list_elem_of_In in Hd. specialize (H d Hd).
    subst. done. }
  rewrite (Hrel ".info.json") by (by apply Hslash).
  rewrite (basename_with_sep organized_path (stem +:+ ".info.json") Hnames).
  change 10%nat with (String.length ".info.json").
  rewrite slice_end_append.
  rewrite !Hrel by (by apply Hslash).
  destruct (negb _ && path_exists _) eqn:Hex; [|done].
  apply andb_prop in Hex as [_ Hex].
  intros [= <-]. simpl. exists stem. done.
Qed.

Lemma metadata_files_share_stem_witness :
  let listing := [ "clip.mp4"; "clip.info.json"; "other.info.json" ] in
  exists files,
    _process_downloaded_metadata_files "media/YouTube/ann" listing
      (fun _ => true) true = Some files
    /\ description_path files = "media/YouTube/ann/clip.description.txt"
    /\ csv_path files = Some "media/YouTube/ann/clip.comments.csv".
Proof.
  intros listing. eexists. split; [reflexivity|].
  destruct (metadata_files_share_stem "media/YouTube/ann" listing
              (fun _ => true) true _
              ltac:(repeat constructor; by apply not_contains_spec)
              eq_refl)
    as (stem & Hfind & _ & Hd & Hc & _).
  injection Hfind as Hstem.
  assert (stem = "clip") as ->.
  { apply (append_inj_r _ _ ".info.json"). by rewrite <- Hstem. }
  split; [exact Hd|exact Hc].
Defined.


(** ** The output template *)

Import Options.

Lemma get_unique_filename_total (fuel : nat) (fs : gset string) (p : string) :
  (size fs < fuel)%nat ->
  exists r, get_unique_filename fuel fs p = Some r
            /\ (r ∉ fs)
            /\ ((p ∉ fs) -> r = p).
Proof.
  intros Hfuel. unfold get_unique_filename, path_exists.
  case_bool_decide as Hp; simpl.
  - destruct (splitext p) as [base ext].
    destruct (first_free fs base ext (S (size fs)) 1
                (some_name_free fs base ext 1)) as (k & Hk & Hbelow & Hfree).
    exists (numbered base ext (1 + k)). split; [|split; [done|done]].
    apply unique_loop_finds; [done|done|lia].
  - exists p. done.
Qed.

Lemma startswith_slash_append (a b : string) :
  Str.startswith "/" b = false ->
  Str.startswith "/" (a +:+ b) = Str.startswith "/" a.
Proof.
  intros Hb. destruct a as [|c a]; [by rewrite append_nil_l|].
  rewrite append_cons. unfold Str.startswith.
  destruct (String.prefix "/" (String c a)) eqn:Hp.
  - apply prefix_char in Hp as ->. apply prefix_spec. by eexists.
  - destruct (String.prefix "/" (String c (a +:+ b))) eqn:Hp'; [|done].
    apply prefix_char in Hp' as ->.
    assert (String.prefix "/" (String "/" a) = true)
      by (apply prefix_spec; by eexists).
    congruence.
Qed.

Lemma os_path_join_one (path b : string) :
  os_path_join path [b]
  = if Str.startswith "/" b then b else with_sep path +:+ b.
Proof.
  unfold os_path_join. simpl.
  destruct (Str.startswith "/" b) eqn:Hb.
  - unfold join_step. by rewrite Hb.
  - by apply join_step_relative.
Qed.

(** X18: the output template of [_prepare_download_options] lies under
    the organised directory only for a title that does not begin with a
    slash; [os.path.join] drops the directory otherwise.  In the video
    branch [get_unique_filename] tests the name without its extension, so
    the template is that name whenever no path of exactly that name
    exists. *)
Theorem output_template_of_title (fuel : nat) (fs : gset string)
        (organized_path title choice : string) :
  (size fs < fuel)%nat ->
  let path := if Str.startswith "/" title then title
              else with_sep organized_path +:+ title in
  exists filename_base,
    get_unique_filename fuel fs (os_path_join organized_path [title])
    = Some filename_base
    /\ (filename_base ∉ fs)
    /\ ((path ∉ fs) -> filename_base = path)
    /\ outtmpl fuel fs organized_path title choice
       = Some (if String.eqb choice "mp3" then path +:+ ".%(ext)s"
               else filename_base +:+ ".%(ext)s").
Proof.
  intros Hfuel path. unfold outtmpl.
  rewrite !os_path_join_one.
  rewrite (startswith_slash_append title ".%(ext)s") by reflexivity.
  fold path.
  destruct (get_unique_filename_total fuel fs path Hfuel)
    as (r & Hr & Hfree & Hsame).
  exists r. rewrite Hr. simpl. split; [done|]. split; [done|].
  split; [done|]. destruct (String.eqb choice "mp3"); [|done].
  unfold path. destruct (Str.startswith "/" title); [done|].
  by rewrite append_assoc.
Qed.

Lemma output_template_of_title_witness :
  let fs : gset string := {[ "media/YouTube/ann/clip.mp4" ]} in
  outtmpl 2 fs "media/YouTube/ann" "clip" "720p"
  = Some "media/YouTube/ann/clip.%(ext)s"
  /\ outtmpl 2 fs "media/YouTube/ann" "/tmp/clip" "mp3"
     = Some "/tmp/clip.%(ext)s".
Proof.
  intros fs.
  assert (Hsize : (size fs < 2)%nat).
  { unfold fs. rewrite size_singleton. lia. }
  split.
  - destruct (output_template_of_title 2 fs "media/YouTube/ann" "clip" "720p"
                Hsize) as (base & _ & _ & Hsame & Hout).
    rewrite Hout. rewrite Hsame; [reflexivity|].
    unfold fs. apply not_elem_of_singleton. discriminate.
  - destruct (output_template_of_title 2 fs "media/YouTube/ann" "/tmp/clip"
                "mp3" Hsize) as (base & _ & _ & _ & Hout).
    exact Hout.
Defined.
